(** * critic.py: the multi-critic evaluation and its consensus

    A shallow embedding of [src/critic.py]: the judge invoker
    ([generate_critic]), the extraction of the verdict line
    ([format_critique_output] and the summary loop of [main]) and the
    consensus computed at the end of [main].

    Python [str] values are modelled as lists of characters; a character is
    a code point in U+0000..U+00FF (Rocq's [ascii]).  On that range
    [is_space], [lower_char] and the rest follow CPython's tables. *)

From Stdlib Require Import Ascii String DecimalString.
From Stdlib Require Import List Bool Arith NArith ZArith QArith Lia Permutation.
Import ListNotations.
Close Scope Q_scope.
Close Scope Z_scope.
Open Scope nat_scope.

(** ** Python strings *)

Module PyStr.

Definition str := list ascii.

(** A literal of the source. *)
Definition lit (s : string) : str := list_ascii_of_string s.

Definition LF : ascii := "010"%char.
Definition SP : ascii := " "%char.

Fixpoint eqb (a b : str) : bool :=
  match a, b with
  | [], [] => true
  | x :: a', y :: b' => Ascii.eqb x y && eqb a' b'
  | _, _ => false
  end.

(** [str.isspace] on one character, which is what [str.strip()] removes:
    TAB..CR, FS..US, SPACE, NEL and NBSP. *)
Definition is_space (c : ascii) : bool :=
  let n := N_of_ascii c in
  ((9 <=? n) && (n <=? 13) || (28 <=? n) && (n <=? 32)
   || (n =? 133) || (n =? 160))%N.

(** [str.lower] on one character: A..Z and the Latin-1 capitals
    U+00C0..U+00DE (the multiplication sign U+00D7 apart) move up by 32. *)
Definition lower_char (c : ascii) : ascii :=
  let n := N_of_ascii c in
  if ((65 <=? n) && (n <=? 90)
      || (192 <=? n) && (n <=? 222) && negb (n =? 215))%N
  then ascii_of_N (n + 32) else c.

Definition lower (s : str) : str := map lower_char s.

Fixpoint lstrip (s : str) : str :=
  match s with
  | [] => []
  | c :: t => if is_space c then lstrip t else s
  end.

Definition rstrip (s : str) : str := rev (lstrip (rev s)).

(** [s.strip()] *)
Definition strip (s : str) : str := lstrip (rstrip s).

(** [s.split('\n')]: the pieces between line feeds; never the empty list. *)
Fixpoint split_lf (s : str) : list str :=
  match s with
  | [] => [[]]
  | c :: t =>
      if Ascii.eqb c LF then [] :: split_lf t
      else match split_lf t with
           | [] => [[c]]
           | l :: ls => (c :: l) :: ls
           end
  end.

(** [sep.join(xs)] *)
Fixpoint join (sep : str) (xs : list str) : str :=
  match xs with
  | [] => []
  | [x] => x
  | x :: rest => x ++ sep ++ join sep rest
  end.

(** [c * n] for a one-character string. *)
Definition times (c : ascii) (n : nat) : str := repeat c n.

(** [format(s, str(width))] for a string: left-aligned, padded with spaces. *)
Definition ljust (width : nat) (s : str) : str :=
  s ++ repeat SP (width - length s).

(** [xs[-1]] of a non-empty list, [xs[:-1]]. *)
Definition last_item (xs : list str) : str := last xs [].
Definition but_last (xs : list str) : list str := removelast xs.

(** What a call gives: a value, or an exception with its [str(e)]. *)
Inductive result (A : Type) : Type :=
  | Ok (a : A)
  | Raise (e : str).
Arguments Ok {A} a.
Arguments Raise {A} e.

Definition cons_ok (c : ascii) (r : result str) : result str :=
  match r with Ok s => Ok (c :: s) | Raise e => Raise e end.

Definition app_ok (v : str) (r : result str) : result str :=
  match r with Ok s => Ok (v ++ s) | Raise e => Raise e end.

(** [d.get(k)] on a dict written as its items in insertion order. *)
Fixpoint dict_get (d : list (str * str)) (k : str) : option str :=
  match d with
  | [] => None
  | (k', v) :: d' => if eqb k' k then Some v else dict_get d' k
  end.

(** [template.format(name=value, ...)] for templates whose replacement fields are
    plain keyword names, as those of the source are: [{{] and [}}] are the
    escaped braces, [{name}] is replaced by [str(kwargs[name])].  The
    scanner reads left to right; [st] is what it is in the middle of. *)
Inductive fmt_state : Type :=
  | Text
  | Open
  | Field (name_rev : str)
  | Close.

Definition LBRACE : ascii := "{"%char.
Definition RBRACE : ascii := "}"%char.
Definition QUOTE : ascii := "'"%char.
Definition DQUOTE : ascii := "034"%char.

Fixpoint format_from (st : fmt_state) (t : str) (kwargs : list (str * str))
  : result str :=
  match t with
  | [] =>
      match st with
      | Text => Ok []
      | Open => Raise (lit "Single '{' encountered in format string")
      | Field _ => Raise (lit "expected '}' before end of string")
      | Close => Raise (lit "Single '}' encountered in format string")
      end
  | c :: t' =>
      match st with
      | Text =>
          if Ascii.eqb c LBRACE then format_from Open t' kwargs
          else if Ascii.eqb c RBRACE then format_from Close t' kwargs
          else cons_ok c (format_from Text t' kwargs)
      | Open =>
          if Ascii.eqb c LBRACE then cons_ok LBRACE (format_from Text t' kwargs)
          else if Ascii.eqb c RBRACE then
            Raise (lit "Replacement index 0 out of range for positional args tuple")
          else format_from (Field [c]) t' kwargs
      | Field name_rev =>
          if Ascii.eqb c RBRACE then
            match dict_get kwargs (rev name_rev) with
            | Some v => app_ok v (format_from Text t' kwargs)
            | None => Raise (QUOTE :: rev name_rev ++ [QUOTE])
            end
          else if Ascii.eqb c LBRACE then
            Raise (lit "unexpected '{' in field name")
          else format_from (Field (c :: name_rev)) t' kwargs
      | Close =>
          if Ascii.eqb c RBRACE then cons_ok RBRACE (format_from Text t' kwargs)
          else Raise (lit "Single '}' encountered in format string")
      end
  end.

Definition format (template : str) (kwargs : list (str * str)) : result str :=
  format_from Text template kwargs.

End PyStr.

Import PyStr.

(** ** The configuration of the source *)

(** [CRITIC_SYSTEM_PROMPT], line by line. *)
Definition CRITIC_SYSTEM_PROMPT : str :=
  join [LF]
    [ lit "You are a critic agent. Your job is to check if a proposed trading strategy matches the user's original request.";
      [];
      lit "## Your Task";
      lit "1. Analyze whether the strategy correctly and fully addresses the user request.";
      lit "2. If it does, explain briefly why.";
      lit "3. If it does not, point out the specific gaps, mistakes, or mismatches.";
      lit "4. Be strict: even small missing requirements should be flagged.";
      [];
      lit "CRITICAL: Provide your reasoning first, then end your response with ONLY "
        ++ [DQUOTE] ++ lit "Yes" ++ [DQUOTE] ++ lit " or "
        ++ [DQUOTE] ++ lit "No" ++ [DQUOTE]
        ++ lit " on the last line. DO NOT use JSON format." ].

(** [CRITIC_PROMPT], line by line; the template ends with a line feed. *)
Definition CRITIC_PROMPT : str :=
  join [LF]
    [ lit "## User Request (Prompt)";
      lit "{prompt}";
      [];
      lit "## Generated Strategy";
      lit "{strategy_output}";
      [];
      lit "## Code";
      lit "{code}";
      [] ].

(** [CRITIC_MODEL_LIST], in the order of the dict literal. *)
Definition CRITIC_MODEL_LIST : list (str * str) :=
  [ (lit "gemini", lit "google/gemini-2.5-pro");
    (lit "openai", lit "openai/gpt-4.1");
    (lit "deepseek", lit "deepseek/deepseek-chat-v3.1") ].

(** [list(CRITIC_MODEL_LIST.keys())] *)
Definition registry_keys : list str := map fst CRITIC_MODEL_LIST.

(** ** The transport, the terminal and the state threaded through a run *)

(** One entry of [messages]. *)
Record Message : Type := { role : str; content : str }.

(** The keyword arguments of [client.chat.completions.create]. *)
Record Request : Type :=
  { model : str;
    messages : list Message;
    max_completion_tokens : Z;
    temperature : Q }.

Inductive Classification : Type :=
  | UnanimousApprove
  | UnanimousReject
  | Mixed.

Inductive Verdict : Type :=
  | Approve
  | Reject
  | Unknown.

(** What [print] has written.  The three closing messages of [main] begin
    with a symbol outside U+0000..U+00FF; they are recorded as the branch
    that printed them. *)
Inductive Output : Type :=
  | Line (s : str)
  | ConsensusLine (c : Classification).

Record World : Type :=
  { calls : list Request;
    stdout : list Output }.

Definition M (A : Type) : Type := World -> A * World.

Definition ret {A} (a : A) : M A := fun w => (a, w).

Definition bind {A B} (m : M A) (k : A -> M B) : M B :=
  fun w => let (a, w') := m w in k a w'.

Declare Scope critic_scope.
Delimit Scope critic_scope with critic.
Notation "x <- m ; k" := (bind m (fun x => k))
  (at level 61, m at next level, right associativity) : critic_scope.
Notation "m ;; k" := (bind m (fun _ => k))
  (at level 61, right associativity) : critic_scope.
Open Scope critic_scope.

Definition emit (o : Output) : M unit :=
  fun w => (tt, {| calls := calls w; stdout := stdout w ++ [o] |}).

Definition print (s : str) : M unit := emit (Line s).

Definition nat_str (n : nat) : str :=
  lit (DecimalString.NilEmpty.string_of_uint (Nat.to_uint n)).

Record Args : Type :=
  { prompt : str;
    strategy_output : str;
    code : str;
    models : list str }.

(** What [main] holds when it ends. *)
Record Run : Type :=
  { results : list (str * str * str);
    verdicts : list str;
    yes_count : nat;
    no_count : nat;
    consensus : Classification }.

Section Critic.

(** The transport: what [client.chat.completions.create(...)] followed by
    [.choices[0].message.content] gives for a request, knowing the requests
    made before: the text, or the exception raised on the way. *)
Variable create : list Request -> Request -> result str.

(** [str.upper], which leaves U+0000..U+00FF; only the progress and summary
    lines use it. *)
Variable upper : str -> str.

Definition chat_completions_create (r : Request) : M (result str) :=
  fun w => (create (calls w) r,
            {| calls := calls w ++ [r]; stdout := stdout w |}).

(** The body of the [try] up to the [return]. *)
Definition request_critique (model_choice model user_prompt strategy_output code : str)
  : M (result str) :=
  match format CRITIC_PROMPT
          [ (lit "prompt", user_prompt);
            (lit "strategy_output", strategy_output);
            (lit "code", code) ] with
  | Raise e => ret (Raise e)
  | Ok user_content =>
      chat_completions_create
        {| model := model;
           messages :=
             [ {| role := lit "system"; content := CRITIC_SYSTEM_PROMPT |};
               {| role := lit "user"; content := user_content |} ];
           max_completion_tokens :=
             if negb (eqb model_choice (lit "openai")) then 2000%Z else 10000%Z;
           temperature := (3 # 10)%Q |}
  end.

Definition generate_critic (model_choice user_prompt strategy_output code : str)
  : M (str * str) :=
  match dict_get CRITIC_MODEL_LIST (lower model_choice) with
  | Some ((_ :: _) as model) =>
      print (LF :: times "=" 80) ;;
      print (lit "Getting critique from " ++ upper model_choice
             ++ lit " (" ++ model ++ lit ")...") ;;
      print (times "=" 80 ++ [LF]) ;;
      r <- request_critique model_choice model user_prompt strategy_output code ;
      match r with
      | Ok critique => ret (critique, model)
      | Raise e =>
          let error_msg :=
            lit "Error during API call to " ++ model_choice ++ lit ": " ++ e in
          print (lit "! " ++ error_msg ++ [LF]) ;;
          ret (error_msg, model)
      end
  | _ =>
      ret (lit "Error: Unknown model '" ++ model_choice ++ lit "'", model_choice)
  end.

Definition ESC : ascii := "027"%char.

Definition format_critique_output (critique model : str) : M unit :=
  let lines := split_lf (strip critique) in
  let verdict :=
    match lines with [] => lit "Unknown" | _ => strip (last_item lines) end in
  let verdict_color :=
    if eqb (lower verdict) (lit "yes") then ESC :: lit "[92m"
    else ESC :: lit "[91m" in
  let reset_color := ESC :: lit "[0m" in
  print (lit "Model: " ++ model) ;;
  print (lit "Verdict: " ++ verdict_color ++ verdict ++ reset_color) ;;
  print (LF :: lit "Reasoning:") ;;
  print (times "-" 80) ;;
  print (join [LF] (but_last lines)) ;;
  print (times "-" 80).

(** The loop that collects all critiques. *)
Fixpoint collect (a : Args) (todo : list str) : M (list (str * str * str)) :=
  match todo with
  | [] => ret []
  | model_choice :: rest =>
      cm <- generate_critic model_choice (prompt a) (strategy_output a) (code a) ;
      format_critique_output (fst cm) (snd cm) ;;
      print [] ;;
      more <- collect a rest ;
      ret ((fst cm, snd cm, model_choice) :: more)
  end.

(** The loop of the summary. *)
Fixpoint summarize (rs : list (str * str * str)) : M (list str) :=
  match rs with
  | [] => ret []
  | (critique, model, model_choice) :: rest =>
      let lines := split_lf (strip critique) in
      let verdict :=
        match lines with [] => lit "Error" | _ => strip (last_item lines) end in
      print (ljust 12 (upper model_choice) ++ lit " (" ++ ljust 40 model
             ++ lit "): " ++ verdict) ;;
      more <- summarize rest ;
      ret (verdict :: more)
  end.

(** [sum(1 for v in verdicts if v.lower() == word)] *)
Definition count_word (word : str) (verdicts : list str) : nat :=
  list_sum (map (fun _ => 1)
                (filter (fun v => eqb (lower v) word) verdicts)).

(** The branch taken by the closing [if]/[elif]/[else]. *)
Definition classify (yes_count no_count total : nat) : Classification :=
  if yes_count =? total then UnanimousApprove
  else if no_count =? total then UnanimousReject
  else Mixed.

(** [main] from the banner on, the arguments being parsed and the client
    built. *)
Definition main (a : Args) : M Run :=
  print (LF :: times "=" 80) ;;
  print (lit "TRADING STRATEGY EVALUATION") ;;
  print (times "=" 80) ;;
  print (LF :: lit "User Prompt:" ++ [LF] ++ prompt a ++ [LF]) ;;
  print (lit "Evaluating with models: " ++ join (lit ", ") (models a) ++ [LF]) ;;
  results <- collect a (models a) ;
  print (LF :: times "=" 80) ;;
  print (lit "SUMMARY") ;;
  print (times "=" 80 ++ [LF]) ;;
  verdicts <- summarize results ;
  let yes_count := count_word (lit "yes") verdicts in
  let no_count := count_word (lit "no") verdicts in
  print (LF :: lit "Consensus: " ++ nat_str yes_count ++ lit "/"
         ++ nat_str (length verdicts) ++ lit " models approved the strategy") ;;
  let c := classify yes_count no_count (length verdicts) in
  emit (ConsensusLine c) ;;
  print (LF :: times "=" 80 ++ [LF]) ;;
  ret {| results := results; verdicts := verdicts;
         yes_count := yes_count; no_count := no_count; consensus := c |}.

End Critic.

(** ** The verdict of one critique *)

(** The verdict line as the summary loop of [main] takes it. *)
Definition verdict_token (critique : str) : str :=
  let lines := split_lf (strip critique) in
  match lines with [] => lit "Error" | _ => strip (last_item lines) end.

(** The verdict line as [format_critique_output] takes it. *)
Definition displayed_verdict (critique : str) : str :=
  let lines := split_lf (strip critique) in
  match lines with [] => lit "Unknown" | _ => strip (last_item lines) end.

(** How the consensus counts a verdict line: the lines that [yes_count]
    counts approve, those that [no_count] counts reject, the others are
    counted by neither. *)
Definition verdict_of (v : str) : Verdict :=
  if eqb (lower v) (lit "yes") then Approve
  else if eqb (lower v) (lit "no") then Reject
  else Unknown.

Definition parse (critique : str) : Verdict := verdict_of (verdict_token critique).

(** *** The verdict line in the words of the specification *)

Definition is_blank (l : str) : bool := forallb is_space l.

Definition is_empty (l : str) : bool :=
  match l with [] => true | _ => false end.

(** The last line of the response that holds more than white space, trimmed;
    the empty text when there is none. *)
Definition last_nonblank_line_trimmed (response : str) : str :=
  strip (last (filter (fun l => negb (is_blank l)) (split_lf response)) []).

(** The last line of the trimmed response that is not empty, trimmed. *)
Definition last_nonempty_line_of_trimmed (response : str) : str :=
  strip (last (filter (fun l => negb (is_empty l)) (split_lf (strip response))) []).

(** The texts that equal "yes", and "no", when case is ignored. *)
Definition yes_spellings : list str :=
  map lit ["yes"; "yeS"; "yEs"; "yES"; "Yes"; "YeS"; "YEs"; "YES"]%string.

Definition no_spellings : list str :=
  map lit ["no"; "nO"; "No"; "NO"]%string.

(** ** The invoker, seen as the specification names it *)

(** The registry entry an identifier resolves to: the lookup and the test
    that open [generate_critic]. *)
Definition resolves (model_choice : str) : option str :=
  match dict_get CRITIC_MODEL_LIST (lower model_choice) with
  | Some ((_ :: _) as model) => Some model
  | _ => None
  end.

(** The user message with the three values under their headings. *)
Definition user_message (user_prompt strategy_output code : str) : str :=
  lit "## User Request (Prompt)" ++ [LF] ++ user_prompt ++ [LF; LF]
  ++ lit "## Generated Strategy" ++ [LF] ++ strategy_output ++ [LF; LF]
  ++ lit "## Code" ++ [LF] ++ code ++ [LF].

(** The response cap written in the call. *)
Definition response_cap (model_choice : str) : Z :=
  if negb (eqb model_choice (lit "openai")) then 2000%Z else 10000%Z.

(** The request an invocation hands to the transport. *)
Definition critic_request (model_choice model user_prompt strategy_output code : str)
  : Request :=
  {| model := model;
     messages :=
       [ {| role := lit "system"; content := CRITIC_SYSTEM_PROMPT |};
         {| role := lit "user";
            content := user_message user_prompt strategy_output code |} ];
     max_completion_tokens := response_cap model_choice;
     temperature := (3 # 10)%Q |}.

(** The three progress lines of an invocation. *)
Definition progress_lines (upper : str -> str) (model_choice model : str)
  : list Output :=
  [ Line (LF :: times "=" 80);
    Line (lit "Getting critique from " ++ upper model_choice
          ++ lit " (" ++ model ++ lit ")...");
    Line (times "=" 80 ++ [LF]) ].

Definition unknown_model_text (model_choice : str) : str :=
  lit "Error: Unknown model '" ++ model_choice ++ lit "'".

Definition api_error_text (model_choice e : str) : str :=
  lit "Error during API call to " ++ model_choice ++ lit ": " ++ e.

(** How an invocation ends. *)
Inductive Ending : Type :=
  | Unrecognised
  | TransportFailure (e : str)
  | Answered (text : str).

Definition ending (create : list Request -> Request -> result str)
    (model_choice user_prompt strategy_output code : str) (w : World) : Ending :=
  match resolves model_choice with
  | None => Unrecognised
  | Some model =>
      match create (calls w)
              (critic_request model_choice model user_prompt strategy_output code) with
      | Ok text => Answered text
      | Raise e => TransportFailure e
      end
  end.

(** The JudgeResult of the specification.  [generate_critic] returns the
    pair of [raw_response] and [model_ref]; [succeeded] is not a value of
    the source, it tells here whether the invocation was answered. *)
Record JudgeResult : Type :=
  { judge_id : str;
    model_ref : str;
    raw_response : str;
    succeeded : bool }.

Definition invoke (create : list Request -> Request -> result str)
    (upper : str -> str)
    (model_choice user_prompt strategy_output code : str) (w : World)
  : JudgeResult * World :=
  let (cm, w') :=
    generate_critic create upper model_choice user_prompt strategy_output code w in
  ({| judge_id := model_choice;
      model_ref := snd cm;
      raw_response := fst cm;
      succeeded :=
        match ending create model_choice user_prompt strategy_output code w with
        | Answered _ => true
        | _ => false
        end |}, w').

(** ** The aggregator, seen as the specification names it *)

(** What [main] computes from its list of verdict lines. *)
Definition aggregate (verdicts : list str) : Classification :=
  classify (count_word (lit "yes") verdicts) (count_word (lit "no") verdicts)
           (length verdicts).

Definition same_verdict (a b : Verdict) : bool :=
  match a, b with
  | Approve, Approve | Reject, Reject | Unknown, Unknown => true
  | _, _ => false
  end.

Definition count_verdict (x : Verdict) (vs : list Verdict) : nat :=
  length (filter (same_verdict x) vs).

(** The classification rule of the specification, in its precedence. *)
Definition precedence (vs : list Verdict) : Classification :=
  if forallb (same_verdict Approve) vs then UnanimousApprove
  else if forallb (same_verdict Reject) vs then UnanimousReject
  else Mixed.

(** No line feed in [s]. *)
Definition no_LF (s : str) : bool := forallb (fun c => negb (Ascii.eqb c LF)) s.

(** The verdict read from the text of a transport error whose exception
    has the description [e]: the lines of [e] after its first that are not
    blank decide, the last of them being the verdict line. *)
Definition failure_verdict (e : str) : Verdict :=
  match filter (fun l => negb (is_blank l)) (tl (split_lf e)) with
  | [] => Unknown
  | ls => verdict_of (strip (last ls []))
  end.

(** A verdict line for each verdict. *)
Definition line_of (v : Verdict) : str :=
  match v with
  | Approve => lit "Yes"
  | Reject => lit "No"
  | Unknown => lit "Maybe"
  end.

(** The requests a run makes for its identifiers, in their order. *)
Definition requests_for (a : Args) (ids : list str) : list Request :=
  flat_map (fun model_choice =>
              match resolves model_choice with
              | Some model =>
                  [critic_request model_choice model
                     (prompt a) (strategy_output a) (code a)]
              | None => []
              end) ids.

(** The line of the summary for one result. *)
Definition summary_line (upper : str -> str) (r : str * str * str) : Output :=
  let '(critique, model, model_choice) := r in
  Line (ljust 12 (upper model_choice) ++ lit " (" ++ ljust 40 model
        ++ lit "): " ++ verdict_token critique).

(** The verdict of an invocation, by the way it ends. *)
Definition verdict_by_ending (e : Ending) : Verdict :=
  match e with
  | Unrecognised => Unknown
  | TransportFailure e => failure_verdict e
  | Answered text => parse text
  end.

(** [r] is the entry of [results] for the identifier [model_choice]: it
    names that identifier and holds what [generate_critic] returned for it
    in the world the run had reached. *)
Definition judged (create : list Request -> Request -> result str)
    (upper : str -> str) (a : Args) (model_choice : str)
    (r : str * str * str) : Prop :=
  snd r = model_choice /\
  exists wi,
    fst r = fst (generate_critic create upper model_choice
                   (prompt a) (strategy_output a) (code a) wi) /\
    parse (fst (fst r)) =
      verdict_by_ending
        (ending create model_choice (prompt a) (strategy_output a) (code a) wi).

(** What [main] prints before the critiques, above the summary and after
    it. *)
Definition opening_lines (a : Args) : list Output :=
  [ Line (LF :: times "=" 80);
    Line (lit "TRADING STRATEGY EVALUATION");
    Line (times "=" 80);
    Line (LF :: lit "User Prompt:" ++ [LF] ++ prompt a ++ [LF]);
    Line (lit "Evaluating with models: " ++ join (lit ", ") (models a) ++ [LF]) ].

Definition summary_heading : list Output :=
  [ Line (LF :: times "=" 80);
    Line (lit "SUMMARY");
    Line (times "=" 80 ++ [LF]) ].

Definition closing_lines (verdicts : list str) : list Output :=
  [ Line (LF :: lit "Consensus: " ++ nat_str (count_word (lit "yes") verdicts)
          ++ lit "/" ++ nat_str (length verdicts)
          ++ lit " models approved the strategy");
    ConsensusLine (aggregate verdicts);
    Line (LF :: times "=" 80 ++ [LF]) ].

(** ** Transports and worlds to run the model on *)

Definition quiet : World := {| calls := []; stdout := [] |}.

Definition always_raises (e : str) : list Request -> Request -> result str :=
  fun _ _ => Raise e.

Definition always_answers (text : str) : list Request -> Request -> result str :=
  fun _ _ => Ok text.

(** [str.upper] on texts of plain ASCII letters. *)
Definition upper_ascii (s : str) : str :=
  map (fun c => let n := N_of_ascii c in
                if ((97 <=? n) && (n <=? 122))%N then ascii_of_N (n - 32) else c) s.

(** ** The rest of [main] and of the display *)

(** The text [format_critique_output] prints between the two rules. *)
Definition reasoning_shown (critique : str) : str :=
  join [LF] (but_last (split_lf (strip critique))).

(** The last line of the trimmed critique, before it is trimmed itself. *)
Definition last_line (critique : str) : str :=
  last_item (split_lf (strip critique)).

(** The truth value of a value that is [None] or a string. *)
Definition truthy (v : option str) : bool :=
  match v with
  | Some (_ :: _) => true
  | _ => false
  end.

(** [a or b] *)
Definition py_or (a b : option str) : option str :=
  if truthy a then a else b.

(** How the process ends: [sys.exit(code)] with what was written to the
    standard error, or the end of [main]. *)
Inductive Finished : Type :=
  | Exit (status : Z) (stderr : list str) (w : World)
  | Done (r : Run) (w : World).

(** [main] from the parsed arguments on: [cli_key] is [args.api_key],
    [env_key] is [os.getenv("OPENROUTER_CRITIC_API_KEY")], and [client key]
    is the transport of the client built with that key. *)
Definition main_entry (client : str -> list Request -> Request -> result str)
    (upper : str -> str) (cli_key env_key : option str) (a : Args) (w : World)
  : Finished :=
  let api_key := py_or cli_key env_key in
  if negb (truthy api_key) then
    Exit 1%Z
      [ lit "Error: No API key provided!";
        lit "Either set OPENROUTER_CRITIC_API_KEY in .env or use --api-key" ]
      w
  else
    let key := match api_key with Some k => k | None => [] end in
    let (_, w1) := print key w in
    let (r, w2) := main (client key) upper a w1 in
    Done r w2.

(** The models of the registry. *)
Definition registry_models : list str := map snd CRITIC_MODEL_LIST.

(** A request as [generate_critic] builds them. *)
Definition well_formed_request (r : Request) : Prop :=
  In (model r) registry_models /\
  map role (messages r) = [lit "system"; lit "user"] /\
  nth 0 (map content (messages r)) [] = CRITIC_SYSTEM_PROMPT /\
  (max_completion_tokens r = 2000%Z \/ max_completion_tokens r = 10000%Z) /\
  temperature r = (3 # 10)%Q.

(** The cap the registry means for a model. *)
Definition cap_of_model (model : str) : Z :=
  if eqb model (lit "openai/gpt-4.1") then 10000%Z else 2000%Z.

(** ** Facts about the string operations *)

Lemma eqb_eq (a b : str) : eqb a b = true <-> a = b.
Proof.
  revert b; induction a as [|x a IH]; intros [|y b]; simpl;
    split; intros H; try discriminate; try reflexivity.
  - apply andb_true_iff in H as [H1 H2].
    apply Ascii.eqb_eq in H1. apply IH in H2. now subst.
  - inversion H; subst. rewrite Ascii.eqb_refl. simpl. now apply IH.
Qed.

Lemma eqb_refl (a : str) : eqb a a = true.
Proof. now apply eqb_eq. Qed.

Lemma eqb_neq (a b : str) : eqb a b = false <-> a <> b.
Proof.
  split.
  - intros H E. apply eqb_eq in E. congruence.
  - intros H. destruct (eqb a b) eqn:E; [|reflexivity].
    apply eqb_eq in E. contradiction.
Qed.

Lemma LF_is_space : is_space LF = true.
Proof. reflexivity. Qed.

Lemma eqb_LF_space (c : ascii) : Ascii.eqb c LF = true -> is_space c = true.
Proof. intros H. apply Ascii.eqb_eq in H. now subst. Qed.

Lemma lstrip_blank (l : str) : is_blank l = true -> lstrip l = [].
Proof.
  induction l as [|c l IH]; simpl; [reflexivity|].
  intros H. apply andb_true_iff in H as [Hc Hl]. rewrite Hc. now apply IH.
Qed.

Lemma lstrip_app (l m : str) :
  lstrip (l ++ m) = if is_blank l then lstrip m else lstrip l ++ m.
Proof.
  induction l as [|c l IH]; simpl; [reflexivity|].
  destruct (is_space c); simpl; [exact IH|reflexivity].
Qed.

Lemma rstrip_nil : rstrip [] = [].
Proof. reflexivity. Qed.

Lemma rstrip_snoc (t : str) (c : ascii) :
  rstrip (t ++ [c]) = if is_space c then rstrip t else t ++ [c].
Proof.
  unfold rstrip. rewrite rev_unit. simpl.
  destruct (is_space c); [reflexivity|].
  simpl. now rewrite rev_involutive.
Qed.

Lemma is_blank_rev (l : str) : is_blank (rev l) = is_blank l.
Proof.
  unfold is_blank. induction l as [|c l IH]; simpl; [reflexivity|].
  rewrite forallb_app, IH. simpl. rewrite andb_true_r. apply andb_comm.
Qed.

Lemma rstrip_blank (l : str) : is_blank l = true -> rstrip l = [].
Proof.
  intros H. unfold rstrip. rewrite lstrip_blank; [reflexivity|].
  now rewrite is_blank_rev.
Qed.

Lemma rstrip_cons (c : ascii) (h : str) :
  rstrip (c :: h) =
  if is_blank h then (if is_space c then [] else [c]) else c :: rstrip h.
Proof.
  unfold rstrip. simpl. rewrite lstrip_app, is_blank_rev.
  destruct (is_blank h); simpl.
  - now destruct (is_space c).
  - now rewrite rev_unit.
Qed.

Lemma strip_nil : strip [] = [].
Proof. reflexivity. Qed.

Lemma strip_cons_space (c : ascii) (h : str) :
  is_space c = true -> strip (c :: h) = strip h.
Proof.
  intros Hc. unfold strip. rewrite rstrip_cons, Hc.
  destruct (is_blank h) eqn:Hb; simpl.
  - now rewrite (rstrip_blank h Hb).
  - now rewrite Hc.
Qed.

Lemma strip_snoc_space (t : str) (c : ascii) :
  is_space c = true -> strip (t ++ [c]) = strip t.
Proof. intros Hc. unfold strip. now rewrite rstrip_snoc, Hc. Qed.

Lemma strip_blank (l : str) : is_blank l = true -> strip l = [].
Proof. intros H. unfold strip. now rewrite rstrip_blank. Qed.

Lemma is_blank_snoc (t : str) (c : ascii) :
  is_blank (t ++ [c]) = is_blank t && is_space c.
Proof. unfold is_blank. rewrite forallb_app. simpl. now rewrite andb_true_r. Qed.

Lemma split_lf_not_nil (s : str) : split_lf s <> [].
Proof.
  destruct s as [|c t]; simpl; [discriminate|].
  destruct (Ascii.eqb c LF); [discriminate|].
  destruct (split_lf t); discriminate.
Qed.

Lemma split_lf_snoc (t : str) (c : ascii) :
  split_lf (t ++ [c]) =
  if Ascii.eqb c LF then split_lf t ++ [[]]
  else removelast (split_lf t) ++ [last (split_lf t) [] ++ [c]].
Proof.
  induction t as [|x t IH]; simpl.
  - now destruct (Ascii.eqb c LF).
  - rewrite IH. pose proof (split_lf_not_nil t) as Hne.
    destruct (Ascii.eqb x LF); destruct (Ascii.eqb c LF);
      destruct (split_lf t) as [|l ls]; try contradiction; try reflexivity.
    simpl. now destruct ls.
Qed.

Lemma last_split_lf_snoc (t : str) (c : ascii) :
  is_space c = false ->
  last (split_lf (t ++ [c])) [] = last (split_lf t) [] ++ [c].
Proof.
  intros Hc. rewrite split_lf_snoc.
  destruct (Ascii.eqb c LF) eqn:E.
  - apply eqb_LF_space in E. congruence.
  - apply last_last.
Qed.

Lemma split_lf_last (s : str) :
  split_lf s = removelast (split_lf s) ++ [last (split_lf s) []].
Proof. apply app_removelast_last, split_lf_not_nil. Qed.

(** Trimming the text on the left does not change its trimmed last line. *)
Lemma last_line_lstrip (x : str) :
  strip (last (split_lf (lstrip x)) []) = strip (last (split_lf x) []).
Proof.
  induction x as [|c t IH]; [reflexivity|].
  simpl lstrip. destruct (is_space c) eqn:Hc; [|reflexivity].
  rewrite IH. simpl split_lf.
  pose proof (split_lf_not_nil t) as Hne.
  destruct (Ascii.eqb c LF).
  - destruct (split_lf t); [contradiction|reflexivity].
  - destruct (split_lf t) as [|l ls]; [contradiction|].
    destruct ls as [|l' ls]; [|reflexivity].
    simpl. symmetry. now apply strip_cons_space.
Qed.

(** Trimming the text on the right leaves the last line that is not blank. *)
Lemma last_line_rstrip (r : str) :
  strip (last (split_lf (rstrip r)) []) = last_nonblank_line_trimmed r.
Proof.
  unfold last_nonblank_line_trimmed.
  induction r as [|c t IH] using rev_ind; [reflexivity|].
  rewrite rstrip_snoc, split_lf_snoc.
  destruct (is_space c) eqn:Hc.
  - rewrite IH. destruct (Ascii.eqb c LF).
    + rewrite filter_app. simpl. now rewrite app_nil_r.
    + rewrite (split_lf_last t) at 1. rewrite !filter_app. simpl.
      rewrite is_blank_snoc, Hc, andb_true_r.
      destruct (is_blank (last (split_lf t) [])); simpl.
      * reflexivity.
      * rewrite !last_last. symmetry. now apply strip_snoc_space.
  - destruct (Ascii.eqb c LF) eqn:E.
    + apply eqb_LF_space in E. congruence.
    + rewrite filter_app. simpl.
      rewrite is_blank_snoc, Hc, andb_false_r. simpl.
      rewrite last_last. now rewrite last_split_lf_snoc.
Qed.

Lemma rstrip_ends (r : str) :
  rstrip r = [] \/ exists t c, rstrip r = t ++ [c] /\ is_space c = false.
Proof.
  induction r as [|c t IH] using rev_ind; [now left|].
  rewrite rstrip_snoc. destruct (is_space c) eqn:Hc; [exact IH|].
  right. now exists t, c.
Qed.

(** A trimmed text is empty or ends with a character that is not white. *)
Lemma strip_ends (r : str) :
  strip r = [] \/ exists t c, strip r = t ++ [c] /\ is_space c = false.
Proof.
  unfold strip. destruct (rstrip_ends r) as [E|(t & c & E & Hc)]; rewrite E.
  - now left.
  - right. rewrite lstrip_app. destruct (is_blank t).
    + exists [], c. simpl. now rewrite Hc.
    + now exists (lstrip t), c.
Qed.

Lemma strip_cons_nonspace (c : ascii) (h : str) :
  is_space c = false -> exists h', strip (c :: h) = c :: h'.
Proof.
  intros Hc. unfold strip. rewrite rstrip_cons, Hc.
  destruct (is_blank h); simpl; rewrite Hc; eauto.
Qed.

Lemma verdict_token_eq (critique : str) :
  verdict_token critique = strip (last (split_lf (strip critique)) []).
Proof.
  unfold verdict_token, last_item.
  pose proof (split_lf_not_nil (strip critique)) as Hne.
  now destruct (split_lf (strip critique)).
Qed.

Lemma displayed_verdict_eq (critique : str) :
  displayed_verdict critique = verdict_token critique.
Proof.
  unfold displayed_verdict, verdict_token.
  pose proof (split_lf_not_nil (strip critique)) as Hne.
  now destruct (split_lf (strip critique)).
Qed.

Lemma verdict_token_nonblank (critique : str) :
  verdict_token critique = last_nonblank_line_trimmed critique.
Proof.
  rewrite verdict_token_eq.
  change (strip critique) with (lstrip (rstrip critique)).
  rewrite last_line_lstrip. apply last_line_rstrip.
Qed.

Lemma verdict_token_nonempty (critique : str) :
  verdict_token critique = last_nonempty_line_of_trimmed critique.
Proof.
  rewrite verdict_token_eq. unfold last_nonempty_line_of_trimmed.
  destruct (strip_ends critique) as [E|(t & c & E & Hc)]; rewrite E.
  - reflexivity.
  - rewrite split_lf_snoc. destruct (Ascii.eqb c LF) eqn:El.
    + apply eqb_LF_space in El. congruence.
    + rewrite filter_app. simpl.
      replace (is_empty (last (split_lf t) [] ++ [c])) with false
        by now destruct (last (split_lf t) []).
      simpl. now rewrite !last_last.
Qed.

Lemma verdict_of_Approve (v : str) :
  verdict_of v = Approve <-> lower v = lit "yes".
Proof.
  unfold verdict_of. destruct (eqb (lower v) (lit "yes")) eqn:E.
  - apply eqb_eq in E. tauto.
  - apply eqb_neq in E.
    destruct (eqb (lower v) (lit "no")); split; intros; congruence.
Qed.

Lemma verdict_of_Reject (v : str) :
  verdict_of v = Reject <-> lower v = lit "no".
Proof.
  unfold verdict_of. destruct (eqb (lower v) (lit "yes")) eqn:E.
  - apply eqb_eq in E. split; intros H; [discriminate|].
    rewrite E in H. discriminate.
  - destruct (eqb (lower v) (lit "no")) eqn:E'.
    + apply eqb_eq in E'. tauto.
    + apply eqb_neq in E'. split; intros; congruence.
Qed.

Lemma verdict_of_Unknown (v : str) :
  verdict_of v = Unknown <-> lower v <> lit "yes" /\ lower v <> lit "no".
Proof.
  unfold verdict_of. destruct (eqb (lower v) (lit "yes")) eqn:E.
  - apply eqb_eq in E. split; [discriminate|tauto].
  - apply eqb_neq in E. destruct (eqb (lower v) (lit "no")) eqn:E'.
    + apply eqb_eq in E'. split; [discriminate|tauto].
    + apply eqb_neq in E'. tauto.
Qed.

(** *** Lowercasing and the two words *)

Lemma lower_char_cases (c : ascii) :
  (lower_char c = "y"%char -> c = "y"%char \/ c = "Y"%char) /\
  (lower_char c = "e"%char -> c = "e"%char \/ c = "E"%char) /\
  (lower_char c = "s"%char -> c = "s"%char \/ c = "S"%char) /\
  (lower_char c = "n"%char -> c = "n"%char \/ c = "N"%char) /\
  (lower_char c = "o"%char -> c = "o"%char \/ c = "O"%char).
Proof.
  destruct c as [[] [] [] [] [] [] [] []];
    repeat split; intros H; vm_compute in H; try discriminate H; auto.
Qed.

Ltac spelled :=
  repeat match goal with
         | H : _ \/ _ |- _ => destruct H as [H|H]
         end;
  subst; simpl; tauto.

Lemma lower_yes (t : str) : lower t = lit "yes" <-> In t yes_spellings.
Proof.
  split.
  - destruct t as [|a [|b [|c [|d t]]]]; try discriminate.
    intros H. injection H as Ha Hb Hc.
    apply (proj1 (lower_char_cases a)) in Ha.
    apply (proj1 (proj2 (lower_char_cases b))) in Hb.
    apply (proj1 (proj2 (proj2 (lower_char_cases c)))) in Hc.
    spelled.
  - intros H. simpl in H.
    repeat (destruct H as [H|H]; [now subst|]). contradiction.
Qed.

Lemma lower_no (t : str) : lower t = lit "no" <-> In t no_spellings.
Proof.
  split.
  - destruct t as [|a [|b [|c t]]]; try discriminate.
    intros H. injection H as Ha Hb.
    apply (proj1 (proj2 (proj2 (proj2 (lower_char_cases a))))) in Ha.
    apply (proj2 (proj2 (proj2 (proj2 (lower_char_cases b))))) in Hb.
    spelled.
  - intros H. simpl in H.
    repeat (destruct H as [H|H]; [now subst|]). contradiction.
Qed.

(** ** The verdict line *)

(** C1. For every raw response the verdict comes from its last line that
    is not blank, trimmed (which is also the last non-empty line of the
    trimmed response, and the line [format_critique_output] shows): the
    verdict is Approve exactly when that line is "yes" in some mix of upper
    and lower case, that is when it lowercases to "yes"; Reject exactly when
    it is "no" in the same sense; Unknown in every other case.  The empty
    response gives Unknown. *)
Theorem parse_last_nonempty_line (response : str) :
  verdict_token response = last_nonblank_line_trimmed response /\
  verdict_token response = last_nonempty_line_of_trimmed response /\
  displayed_verdict response = verdict_token response /\
  (parse response = Approve <->
   lower (last_nonblank_line_trimmed response) = lit "yes") /\
  (parse response = Reject <->
   lower (last_nonblank_line_trimmed response) = lit "no") /\
  (parse response = Unknown <->
   lower (last_nonblank_line_trimmed response) <> lit "yes" /\
   lower (last_nonblank_line_trimmed response) <> lit "no") /\
  (parse response = Approve <->
   In (last_nonblank_line_trimmed response) yes_spellings) /\
  (parse response = Reject <->
   In (last_nonblank_line_trimmed response) no_spellings) /\
  parse [] = Unknown.
Proof.
  split; [apply verdict_token_nonblank|].
  split; [apply verdict_token_nonempty|].
  split; [apply displayed_verdict_eq|].
  unfold parse. rewrite <- verdict_token_nonblank.
  split; [apply verdict_of_Approve|].
  split; [apply verdict_of_Reject|].
  split; [apply verdict_of_Unknown|].
  split; [rewrite <- lower_yes; apply verdict_of_Approve|].
  split; [rewrite <- lower_no; apply verdict_of_Reject|reflexivity].
Qed.

(** ** The invoker *)

Lemma format_CRITIC_PROMPT (user_prompt strategy_output code : str) :
  format CRITIC_PROMPT
    [ (lit "prompt", user_prompt);
      (lit "strategy_output", strategy_output);
      (lit "code", code) ]
  = Ok (user_message user_prompt strategy_output code).
Proof. reflexivity. Qed.

Section InvokerFacts.

Variable create : list Request -> Request -> result str.
Variable upper : str -> str.

Lemma request_critique_eq (model_choice model p s c : str) (w : World) :
  request_critique create model_choice model p s c w =
  (create (calls w) (critic_request model_choice model p s c),
   {| calls := calls w ++ [critic_request model_choice model p s c];
      stdout := stdout w |}).
Proof.
  unfold request_critique. rewrite format_CRITIC_PROMPT. reflexivity.
Qed.

Lemma generate_critic_unrecognised (model_choice p s c : str) (w : World) :
  resolves model_choice = None ->
  generate_critic create upper model_choice p s c w =
  ((unknown_model_text model_choice, model_choice), w).
Proof.
  unfold resolves, generate_critic. intros H.
  destruct (dict_get CRITIC_MODEL_LIST (lower model_choice)) as [[|x m]|];
    try discriminate; reflexivity.
Qed.

Lemma generate_critic_resolved (model_choice model p s c : str) (w : World) :
  resolves model_choice = Some model ->
  generate_critic create upper model_choice p s c w =
  let r := critic_request model_choice model p s c in
  match create (calls w) r with
  | Ok critique =>
      ((critique, model),
       {| calls := calls w ++ [r];
          stdout := stdout w ++ progress_lines upper model_choice model |})
  | Raise e =>
      ((api_error_text model_choice e, model),
       {| calls := calls w ++ [r];
          stdout := stdout w ++ progress_lines upper model_choice model
                    ++ [Line (lit "! " ++ api_error_text model_choice e ++ [LF])] |})
  end.
Proof.
  unfold resolves, generate_critic. intros H.
  destruct (dict_get CRITIC_MODEL_LIST (lower model_choice)) as [[|x m]|];
    try discriminate.
  injection H as <-.
  unfold bind, print, emit. rewrite request_critique_eq. cbn [calls stdout].
  destruct (create (calls w) _); unfold bind, ret, print, emit; cbn [calls stdout];
    unfold progress_lines; rewrite <- !(@app_assoc Output); reflexivity.
Qed.

End InvokerFacts.

(** *** The text of a failed invocation *)

Lemma lower_char_LF (c : ascii) :
  Ascii.eqb (lower_char c) LF = Ascii.eqb c LF.
Proof. destruct c as [[] [] [] [] [] [] [] []]; reflexivity. Qed.

Lemma lower_char_idem (c : ascii) : lower_char (lower_char c) = lower_char c.
Proof. destruct c as [[] [] [] [] [] [] [] []]; reflexivity. Qed.

Lemma lower_idem (s : str) : lower (lower s) = lower s.
Proof.
  unfold lower. rewrite map_map. apply map_ext. exact lower_char_idem.
Qed.

Lemma no_LF_lower (s : str) : no_LF (lower s) = no_LF s.
Proof.
  unfold no_LF, lower. induction s as [|c s IH]; simpl; [reflexivity|].
  now rewrite lower_char_LF, IH.
Qed.

Lemma resolves_key (model_choice model : str) :
  resolves model_choice = Some model ->
  In (lower model_choice, model) CRITIC_MODEL_LIST.
Proof.
  unfold resolves. generalize (lower model_choice) as k. intros k.
  unfold CRITIC_MODEL_LIST. cbn [dict_get].
  repeat match goal with
         | |- context [eqb ?a k] =>
             let E := fresh "E" in
             destruct (eqb a k) eqn:E; [apply eqb_eq in E; subst k|]
         end;
    cbn; intros H; try discriminate; injection H as <-; auto.
Qed.

Lemma resolves_no_LF (model_choice model : str) :
  resolves model_choice = Some model -> no_LF model_choice = true.
Proof.
  intros H. apply resolves_key in H. rewrite <- no_LF_lower.
  simpl in H. destruct H as [H|[H|[H|[]]]];
    injection H as H _; rewrite <- H; reflexivity.
Qed.

Lemma split_lf_app_no_LF (a b : str) :
  no_LF a = true ->
  split_lf (a ++ b) =
  match split_lf b with [] => [a] | l :: ls => (a ++ l) :: ls end.
Proof.
  induction a as [|c a IH]; simpl.
  - intros _. pose proof (split_lf_not_nil b). now destruct (split_lf b).
  - intros H. apply andb_true_iff in H as [Hc Ha].
    apply negb_true_iff in Hc. rewrite Hc, (IH Ha).
    now destruct (split_lf b).
Qed.

Lemma strip_snoc_nonspace (x : str) (q : ascii) :
  is_space q = false -> exists y, strip (x ++ [q]) = y ++ [q].
Proof.
  intros Hq. unfold strip. rewrite rstrip_snoc, Hq, lstrip_app.
  destruct (is_blank x).
  - exists []. simpl. now rewrite Hq.
  - now exists (lstrip x).
Qed.

(** A text that ends with a character that is not white has a verdict line
    that ends with it. *)
Lemma verdict_token_snoc (x : str) (q : ascii) :
  is_space q = false -> exists z, verdict_token (x ++ [q]) = z ++ [q].
Proof.
  intros Hq. rewrite verdict_token_eq.
  destruct (strip_snoc_nonspace x q Hq) as [y ->].
  rewrite last_split_lf_snoc by exact Hq.
  now apply strip_snoc_nonspace.
Qed.

Lemma verdict_of_ends_with_quote (z : str) :
  verdict_of (z ++ [QUOTE]) = Unknown.
Proof.
  apply verdict_of_Unknown. unfold lower. rewrite map_app. simpl.
  split; intros H.
  - apply (app_inj_tail (map lower_char z) (lit "ye") QUOTE "s"%char) in H.
    destruct H as [_ H]. discriminate.
  - apply (app_inj_tail (map lower_char z) (lit "n") QUOTE "o"%char) in H.
    destruct H as [_ H]. discriminate.
Qed.

Lemma parse_unknown_model_text (model_choice : str) :
  parse (unknown_model_text model_choice) = Unknown.
Proof.
  unfold parse, unknown_model_text.
  change (lit "'") with [QUOTE]. rewrite !app_assoc.
  destruct (verdict_token_snoc (lit "Error: Unknown model '" ++ model_choice)
              QUOTE eq_refl) as [z ->].
  apply verdict_of_ends_with_quote.
Qed.

Lemma verdict_of_starts_with_E (h : str) : verdict_of ("E"%char :: h) = Unknown.
Proof. apply verdict_of_Unknown. split; discriminate. Qed.

Lemma parse_api_error_text (model_choice model e : str) :
  resolves model_choice = Some model ->
  parse (api_error_text model_choice e) = failure_verdict e.
Proof.
  intros H. apply resolves_no_LF in H.
  unfold parse, failure_verdict. rewrite verdict_token_nonblank.
  unfold last_nonblank_line_trimmed, api_error_text.
  rewrite !app_assoc. rewrite split_lf_app_no_LF.
  2:{ unfold no_LF in *. rewrite !forallb_app, H. reflexivity. }
  pose proof (split_lf_not_nil e) as Hne.
  destruct (split_lf e) as [|l0 ls]; [contradiction|].
  rewrite <- !app_assoc. simpl.
  destruct (filter (fun l : str => negb (is_blank l)) ls) as [|l1 more].
  - simpl. destruct (strip_cons_nonspace "E"%char
                       (lit "rror during API call to " ++ model_choice
                        ++ lit ": " ++ l0) eq_refl) as [h' E].
    simpl in E. simpl. rewrite E. apply verdict_of_starts_with_E.
  - reflexivity.
Qed.

Lemma failure_verdict_one_line (e : str) :
  no_LF e = true -> failure_verdict e = Unknown.
Proof.
  intros H. unfold failure_verdict.
  pose proof (split_lf_app_no_LF e [] H) as E.
  rewrite app_nil_r in E. simpl in E. now rewrite E.
Qed.

Section InvocationFacts.

Variable create : list Request -> Request -> result str.
Variable upper : str -> str.

(** What [invoke] gives, by the way the invocation ends. *)
Lemma invoke_eq (model_choice p s c : str) (w : World) :
  invoke create upper model_choice p s c w =
  match resolves model_choice with
  | None =>
      ({| judge_id := model_choice; model_ref := model_choice;
          raw_response := unknown_model_text model_choice;
          succeeded := false |}, w)
  | Some model =>
      let r := critic_request model_choice model p s c in
      match create (calls w) r with
      | Ok text =>
          ({| judge_id := model_choice; model_ref := model;
              raw_response := text; succeeded := true |},
           {| calls := calls w ++ [r];
              stdout := stdout w ++ progress_lines upper model_choice model |})
      | Raise e =>
          ({| judge_id := model_choice; model_ref := model;
              raw_response := api_error_text model_choice e;
              succeeded := false |},
           {| calls := calls w ++ [r];
              stdout := stdout w ++ progress_lines upper model_choice model
                        ++ [Line (lit "! " ++ api_error_text model_choice e
                                  ++ [LF])] |})
      end
  end.
Proof.
  unfold invoke, ending.
  destruct (resolves model_choice) as [model|] eqn:R.
  - rewrite (generate_critic_resolved create upper model_choice model p s c w R).
    cbv zeta. now destruct (create (calls w) _).
  - now rewrite (generate_critic_unrecognised create upper model_choice p s c w R).
Qed.

(** C3, as amended. Invoking never fails to give a result.  An identifier
    that does not resolve gives at once, with no call to the transport and
    the world untouched, a result that did not succeed and whose text says
    that the model is unknown.  When the transport raises, exactly one call
    was made and the result did not succeed; its text is the description of
    the exception behind the words "Error during API call to <id>: ". *)
Theorem invoke_total (model_choice p s c : str) (w : World) :
  exists jr w',
    invoke create upper model_choice p s c w = (jr, w') /\
    judge_id jr = model_choice /\
    match ending create model_choice p s c w with
    | Unrecognised =>
        resolves model_choice = None /\ model_ref jr = model_choice /\
        raw_response jr = unknown_model_text model_choice /\
        succeeded jr = false /\ w' = w
    | TransportFailure e =>
        exists model,
          resolves model_choice = Some model /\ model_ref jr = model /\
          raw_response jr = api_error_text model_choice e /\
          succeeded jr = false /\
          calls w' = calls w ++ [critic_request model_choice model p s c]
    | Answered text =>
        exists model,
          resolves model_choice = Some model /\ model_ref jr = model /\
          raw_response jr = text /\
          succeeded jr = true /\
          calls w' = calls w ++ [critic_request model_choice model p s c]
    end.
Proof.
  rewrite invoke_eq. unfold ending.
  destruct (resolves model_choice) as [model|].
  - cbv zeta. destruct (create (calls w) _) as [text|e];
      eexists; eexists; (split; [reflexivity|]); (split; [reflexivity|]);
      exists model; repeat split.
  - eexists; eexists; repeat split.
Qed.

(** C2, as amended. A result that did not succeed is parsed from its text
    like any other: the verdict is Unknown when the identifier was not
    recognised; after a transport error it is Unknown unless the description
    of the exception has a line after its first that is not blank, the last
    such line then being read as the verdict line.  A description of one
    line always gives Unknown. *)
Theorem failed_result_verdict (model_choice p s c : str) (w : World) :
  succeeded (fst (invoke create upper model_choice p s c w)) = false ->
  parse (raw_response (fst (invoke create upper model_choice p s c w))) =
    match ending create model_choice p s c w with
    | TransportFailure e => failure_verdict e
    | _ => Unknown
    end
  /\ (forall e, no_LF e = true -> failure_verdict e = Unknown).
Proof.
  intros H. split; [|exact failure_verdict_one_line].
  revert H. rewrite invoke_eq. unfold ending.
  destruct (resolves model_choice) as [model|] eqn:R.
  - cbv zeta. destruct (create (calls w) _) as [text|e]; simpl.
    + discriminate.
    + intros _. now apply parse_api_error_text with model.
  - simpl. intros _. apply parse_unknown_model_text.
Qed.

(** C9. The registry is looked up under the lowercased identifier: an
    identifier and its lowercase resolve to the same entry, and the requests
    made for them name the same model; "GEMINI" selects the model of
    "gemini". *)
Theorem resolution_ignores_case (model_choice : str) :
  resolves model_choice = resolves (lower model_choice) /\
  dict_get CRITIC_MODEL_LIST (lower model_choice) =
    dict_get CRITIC_MODEL_LIST (lower (lower model_choice)) /\
  resolves (lit "GEMINI") = Some (lit "google/gemini-2.5-pro") /\
  resolves (lit "gemini") = Some (lit "google/gemini-2.5-pro") /\
  forall p s c w,
    map model (calls (snd (generate_critic create upper model_choice p s c w))) =
    map model (calls (snd (generate_critic create upper (lower model_choice) p s c w))).
Proof.
  assert (R : resolves model_choice = resolves (lower model_choice))
    by (unfold resolves; now rewrite lower_idem).
  split; [exact R|]. split; [now rewrite lower_idem|].
  split; [reflexivity|]. split; [reflexivity|].
  intros p s c w.
  destruct (resolves model_choice) as [m|] eqn:E.
  - rewrite (generate_critic_resolved create upper model_choice m p s c w E).
    rewrite (generate_critic_resolved create upper (lower model_choice) m p s c w
               (eq_sym R)).
    cbv zeta.
    destruct (create (calls w) (critic_request model_choice m p s c));
      destruct (create (calls w) (critic_request (lower model_choice) m p s c));
      simpl; rewrite !map_app; reflexivity.
  - rewrite (generate_critic_unrecognised create upper model_choice p s c w E).
    now rewrite (generate_critic_unrecognised create upper (lower model_choice)
                   p s c w (eq_sym R)).
Qed.

(** C7. The user message is the template with the three values put under
    their headings, whatever the judge, the transport and the world: every
    request made carries the system prompt and that text, so the same three
    values give the same text, character for character. *)
Theorem user_message_reproducible (p s c : str) :
  format CRITIC_PROMPT
    [ (lit "prompt", p); (lit "strategy_output", s); (lit "code", c) ]
  = Ok (lit "## User Request (Prompt)" ++ [LF] ++ p ++ [LF; LF]
        ++ lit "## Generated Strategy" ++ [LF] ++ s ++ [LF; LF]
        ++ lit "## Code" ++ [LF] ++ c ++ [LF]) /\
  forall model_choice model w,
    exists r,
      calls (snd (request_critique create model_choice model p s c w))
      = calls w ++ [r] /\
      map role (messages r) = [lit "system"; lit "user"] /\
      map content (messages r) = [CRITIC_SYSTEM_PROMPT; user_message p s c].
Proof.
  split; [apply format_CRITIC_PROMPT|].
  intros model_choice model w. rewrite request_critique_eq.
  eexists. split; [reflexivity|]. split; reflexivity.
Qed.

End InvocationFacts.

(** ** The run and its consensus *)

Lemma count_word_length (word : str) (vs : list str) :
  count_word word vs = length (filter (fun v => eqb (lower v) word) vs).
Proof.
  unfold count_word.
  induction (filter (fun v => eqb (lower v) word) vs) as [|x l IH];
    simpl; congruence.
Qed.

Lemma same_verdict_Approve (v : str) :
  same_verdict Approve (verdict_of v) = eqb (lower v) (lit "yes").
Proof.
  unfold verdict_of. destruct (eqb (lower v) (lit "yes")); [reflexivity|].
  now destruct (eqb (lower v) (lit "no")).
Qed.

Lemma same_verdict_Reject (v : str) :
  same_verdict Reject (verdict_of v) = eqb (lower v) (lit "no").
Proof.
  unfold verdict_of. destruct (eqb (lower v) (lit "yes")) eqn:E.
  - apply eqb_eq in E. rewrite E. reflexivity.
  - now destruct (eqb (lower v) (lit "no")).
Qed.

Lemma filter_map_length {A B : Type} (f : A -> B) (g : B -> bool) (h : A -> bool)
    (l : list A) :
  (forall x, g (f x) = h x) ->
  length (filter g (map f l)) = length (filter h l).
Proof.
  intros H. induction l as [|x l IH]; simpl; [reflexivity|].
  rewrite H. destruct (h x); simpl; congruence.
Qed.

Lemma yes_count_Approve (vs : list str) :
  count_word (lit "yes") vs = count_verdict Approve (map verdict_of vs).
Proof.
  rewrite count_word_length. unfold count_verdict. symmetry.
  apply filter_map_length. exact same_verdict_Approve.
Qed.

Lemma no_count_Reject (vs : list str) :
  count_word (lit "no") vs = count_verdict Reject (map verdict_of vs).
Proof.
  rewrite count_word_length. unfold count_verdict. symmetry.
  apply filter_map_length. exact same_verdict_Reject.
Qed.

Lemma count_verdict_sum (V : list Verdict) :
  count_verdict Approve V + count_verdict Reject V + count_verdict Unknown V
  = length V.
Proof.
  unfold count_verdict. induction V as [|v V IH]; [reflexivity|].
  destruct v; simpl; lia.
Qed.

Lemma count_all {A : Type} (f : A -> bool) (l : list A) :
  (length (filter f l) =? length l) = forallb f l.
Proof.
  induction l as [|x l IH]; [reflexivity|].
  simpl. destruct (f x); simpl; [exact IH|].
  pose proof (filter_length_le f l). apply Nat.eqb_neq. lia.
Qed.

Lemma classify_precedence (V : list Verdict) :
  classify (count_verdict Approve V) (count_verdict Reject V) (length V)
  = precedence V.
Proof. unfold classify, precedence, count_verdict. now rewrite !count_all. Qed.

Lemma aggregate_precedence (vs : list str) :
  aggregate vs = precedence (map verdict_of vs).
Proof.
  unfold aggregate. rewrite yes_count_Approve, no_count_Reject.
  rewrite <- (length_map verdict_of vs). apply classify_precedence.
Qed.

Lemma verdict_of_line_of (V : list Verdict) :
  map verdict_of (map line_of V) = V.
Proof.
  induction V as [|v V IH]; [reflexivity|].
  simpl. rewrite IH. now destruct v.
Qed.

Lemma precedence_with_Unknown (V1 V2 : list Verdict) :
  precedence (V1 ++ Unknown :: V2) = Mixed.
Proof.
  unfold precedence. rewrite !forallb_app. simpl.
  now rewrite !andb_false_r.
Qed.

Section RunFacts.

Variable create : list Request -> Request -> result str.
Variable upper : str -> str.

Lemma parse_generate_critic (model_choice p s c : str) (w : World) :
  parse (fst (fst (generate_critic create upper model_choice p s c w))) =
  verdict_by_ending (ending create model_choice p s c w).
Proof.
  unfold ending. destruct (resolves model_choice) as [model|] eqn:R.
  - rewrite (generate_critic_resolved create upper model_choice model p s c w R).
    cbv zeta. destruct (create (calls w) _) as [text|e]; simpl.
    + reflexivity.
    + now apply parse_api_error_text with model.
  - rewrite (generate_critic_unrecognised create upper model_choice p s c w R).
    apply parse_unknown_model_text.
Qed.

Lemma calls_generate_critic (model_choice p s c : str) (w : World) :
  calls (snd (generate_critic create upper model_choice p s c w)) =
  calls w ++ match resolves model_choice with
             | Some model => [critic_request model_choice model p s c]
             | None => []
             end.
Proof.
  destruct (resolves model_choice) as [model|] eqn:R.
  - rewrite (generate_critic_resolved create upper model_choice model p s c w R).
    cbv zeta. now destruct (create (calls w) _).
  - rewrite (generate_critic_unrecognised create upper model_choice p s c w R).
    simpl. now rewrite app_nil_r.
Qed.

Lemma calls_format_critique_output (critique model : str) (w : World) :
  calls (snd (format_critique_output critique model w)) = calls w.
Proof. reflexivity. Qed.

Lemma collect_cons (a : Args) (model_choice : str) (rest : list str) (w : World) :
  collect create upper a (model_choice :: rest) w =
  let g := generate_critic create upper model_choice
             (prompt a) (strategy_output a) (code a) w in
  let w2 := snd (print [] (snd (format_critique_output
                                  (fst (fst g)) (snd (fst g)) (snd g)))) in
  let more := collect create upper a rest w2 in
  ((fst (fst g), snd (fst g), model_choice) :: fst more, snd more).
Proof.
  cbn [collect]. unfold bind at 1.
  destruct (generate_critic _ _ _ _ _ _ w) as [cm w1]. cbn [fst snd].
  unfold bind at 1.
  destruct (format_critique_output (fst cm) (snd cm) w1) as [u w2]. cbn [snd].
  unfold bind at 1. destruct (print [] w2) as [u' w3]. cbn [snd].
  unfold bind. destruct (collect create upper a rest w3) as [more w4].
  reflexivity.
Qed.

Lemma collect_facts (a : Args) (todo : list str) (w : World) :
  map snd (fst (collect create upper a todo w)) = todo /\
  Forall2 (judged create upper a) todo (fst (collect create upper a todo w)) /\
  calls (snd (collect create upper a todo w)) = calls w ++ requests_for a todo.
Proof.
  revert w. induction todo as [|model_choice rest IH]; intros w.
  - simpl. repeat split; [constructor|now rewrite app_nil_r].
  - rewrite collect_cons. cbv zeta.
    pose proof (parse_generate_critic model_choice
                  (prompt a) (strategy_output a) (code a) w) as P.
    pose proof (calls_generate_critic model_choice
                  (prompt a) (strategy_output a) (code a) w) as C.
    destruct (generate_critic create upper model_choice
                (prompt a) (strategy_output a) (code a) w)
      as [[critique model] w1] eqn:G.
    cbn [fst snd map] in *.
    match goal with
    | |- context [collect create upper a rest ?w2] =>
        destruct (IH w2) as (Hids & Hj & Hcalls)
    end.
    split; [f_equal; exact Hids|]. split.
    + constructor; [|exact Hj]. split; [reflexivity|].
      exists w. rewrite G. split; [reflexivity|exact P].
    + rewrite Hcalls.
      change (calls (snd (print [] ?x))) with (calls x).
      rewrite calls_format_critique_output, C.
      cbn [requests_for flat_map]. now rewrite <- app_assoc.
Qed.

Lemma summarize_eq (rs : list (str * str * str)) (w : World) :
  summarize upper rs w =
  (map (fun r => verdict_token (fst (fst r))) rs,
   {| calls := calls w; stdout := stdout w ++ map (summary_line upper) rs |}).
Proof.
  revert w. induction rs as [|[[critique model] model_choice] rest IH]; intros w.
  - simpl. unfold ret. rewrite app_nil_r. now destruct w.
  - cbn [summarize]. unfold bind at 1, print, emit.
    unfold bind. rewrite IH. cbn [calls stdout map fst].
    rewrite <- app_assoc. reflexivity.
Qed.

Lemma main_eq (a : Args) (w : World) :
  main create upper a w =
  let c := collect create upper a (models a)
             {| calls := calls w; stdout := stdout w ++ opening_lines a |} in
  let vs := map (fun r => verdict_token (fst (fst r))) (fst c) in
  ({| results := fst c;
      verdicts := vs;
      yes_count := count_word (lit "yes") vs;
      no_count := count_word (lit "no") vs;
      consensus := aggregate vs |},
   {| calls := calls (snd c);
      stdout := stdout (snd c) ++ summary_heading
                ++ map (summary_line upper) (fst c) ++ closing_lines vs |}).
Proof.
  unfold main, bind, print, emit. cbn [calls stdout].
  rewrite <- !(@app_assoc Output). cbn [app]. fold (opening_lines a).
  destruct (collect create upper a (models a) _) as [rs w1].
  rewrite summarize_eq. cbn [calls stdout fst snd].
  unfold ret, summary_heading, closing_lines, aggregate.
  rewrite <- !(@app_assoc Output). reflexivity.
Qed.

End RunFacts.

Section RunClaims.

Variable create : list Request -> Request -> result str.
Variable upper : str -> str.

(** C4. The consensus of a run follows the precedence of the specification
    on the verdicts of its lines: all Approve gives UnanimousApprove, else
    all Reject gives UnanimousReject, else Mixed.  Every sequence of
    verdicts is met by some lines; a sequence that holds an Unknown is
    Mixed, and so are [Approve, Reject], [Unknown, Unknown] and
    [Approve, Unknown]. *)
Theorem consensus_precedence (a : Args) (w : World) (vs : list str) :
  consensus (fst (main create upper a w))
    = precedence (map verdict_of (verdicts (fst (main create upper a w)))) /\
  aggregate vs = precedence (map verdict_of vs) /\
  (forall V : list Verdict, aggregate (map line_of V) = precedence V) /\
  (forall V1 V2 : list Verdict, precedence (V1 ++ Unknown :: V2) = Mixed) /\
  precedence [Approve; Approve; Approve] = UnanimousApprove /\
  precedence [Reject; Reject] = UnanimousReject /\
  precedence [Approve; Reject] = Mixed /\
  precedence [Unknown; Unknown] = Mixed /\
  precedence [Approve; Unknown] = Mixed.
Proof.
  split; [rewrite main_eq; apply aggregate_precedence|].
  split; [apply aggregate_precedence|].
  split; [intros V; now rewrite aggregate_precedence, verdict_of_line_of|].
  split; [exact precedence_with_Unknown|].
  repeat split.
Qed.

(** C5, as amended. A run gives one result and one verdict line for each
    identifier handed to it, whatever the transport does: failures do not
    stop it.  The lines counted as approving, those counted as rejecting and
    the others add up to the number of identifiers.  Each result is what
    the invoker returned for its identifier, and its verdict is read from
    its text: Unknown for an identifier that is not recognised, the verdict
    of the error text after a transport error. *)
Theorem one_verdict_per_judge (a : Args) (w : World) :
  let run := fst (main create upper a w) in
  length (results run) = length (models a) /\
  length (verdicts run) = length (models a) /\
  yes_count run = count_verdict Approve (map verdict_of (verdicts run)) /\
  no_count run = count_verdict Reject (map verdict_of (verdicts run)) /\
  yes_count run + no_count run
    + count_verdict Unknown (map verdict_of (verdicts run))
  = length (models a) /\
  Forall2 (judged create upper a) (models a) (results run).
Proof.
  rewrite main_eq. cbv zeta. cbn [fst results verdicts yes_count no_count].
  match goal with
  | |- context [collect create upper a (models a) ?w0] =>
      destruct (collect_facts create upper a (models a) w0) as (Hids & Hj & _);
      set (rs := fst (collect create upper a (models a) w0)) in *
  end.
  assert (Hlen : length rs = length (models a))
    by (rewrite <- (length_map snd rs); now rewrite Hids).
  split; [exact Hlen|]. split; [now rewrite length_map|].
  split; [apply yes_count_Approve|]. split; [apply no_count_Reject|].
  split; [|exact Hj].
  rewrite yes_count_Approve, no_count_Reject, count_verdict_sum.
  now rewrite !length_map.
Qed.

(** C8. The identifiers are taken one after the other in the order of the
    caller's list: the requests reach the transport in that order, the i-th
    result names the i-th identifier, the i-th verdict line is that of the
    i-th result, and the summary shows one line for each result in the same
    order. *)
Theorem report_keeps_order (a : Args) (w : World) :
  let run := fst (main create upper a w) in
  let w' := snd (main create upper a w) in
  map snd (results run) = models a /\
  verdicts run = map (fun r => verdict_token (fst (fst r))) (results run) /\
  Forall2 (judged create upper a) (models a) (results run) /\
  calls w' = calls w ++ requests_for a (models a) /\
  exists before,
    stdout w' = before ++ summary_heading
                ++ map (summary_line upper) (results run)
                ++ closing_lines (verdicts run).
Proof.
  rewrite main_eq. cbv zeta. cbn [fst snd results verdicts calls stdout].
  match goal with
  | |- context [collect create upper a (models a) ?w0] =>
      destruct (collect_facts create upper a (models a) w0) as (Hids & Hj & Hc)
  end.
  split; [exact Hids|]. split; [reflexivity|]. split; [exact Hj|].
  split; [exact Hc|]. eexists. reflexivity.
Qed.

(** C10. A run over no identifier at all is classified UnanimousApprove:
    it has no verdict, its counts are all zero, and the first test of the
    consensus, zero approvals out of zero, succeeds. *)
Theorem empty_run_is_unanimous_approve (p s c : str) (w : World) :
  let run :=
    fst (main create upper
           {| prompt := p; strategy_output := s; code := c; models := [] |} w) in
  consensus run = UnanimousApprove /\
  verdicts run = [] /\
  yes_count run = 0 /\
  no_count run = 0 /\
  count_verdict Unknown (map verdict_of (verdicts run)) = 0 /\
  aggregate [] = UnanimousApprove /\
  precedence [] = UnanimousApprove.
Proof. repeat split. Qed.

End RunClaims.

(** ** The model run on concrete inputs *)

Example parse_Yes : parse (lit "Looks right." ++ [LF] ++ lit "Yes") = Approve.
Proof. reflexivity. Qed.

Example parse_YES_padded :
  parse (lit "Fine." ++ [LF] ++ lit " YES " ++ [LF; LF]) = Approve.
Proof. reflexivity. Qed.

Example parse_single_No : parse (lit "No") = Reject.
Proof. reflexivity. Qed.

Example parse_Maybe : parse (lit "Hard to say." ++ [LF] ++ lit "Maybe") = Unknown.
Proof. reflexivity. Qed.

Example parse_CRLF :
  parse (lit "Reasoning." ++ ["013"%char; LF] ++ lit "no" ++ ["013"%char; LF])
  = Reject.
Proof. reflexivity. Qed.

(** A transport error of one line is parsed as Unknown. *)
Lemma failed_result_verdict_witness :
  succeeded (fst (invoke (always_raises (lit "timeout")) upper_ascii
                    (lit "gemini") (lit "p") (lit "s") (lit "c") quiet)) = false /\
  parse (raw_response
           (fst (invoke (always_raises (lit "timeout")) upper_ascii
                   (lit "gemini") (lit "p") (lit "s") (lit "c") quiet)))
  = Unknown.
Proof.
  split; [reflexivity|].
  exact (proj1 (failed_result_verdict (always_raises (lit "timeout")) upper_ascii
                  (lit "gemini") (lit "p") (lit "s") (lit "c") quiet eq_refl)).
Defined.

(** C2 as stated fails: the transport raises an exception whose description
    has "Yes" as its last line; the result did not succeed and is parsed as
    Approve. *)
Lemma failed_result_parsed_as_approve :
  let jr :=
    fst (invoke (always_raises (lit "boom" ++ [LF] ++ lit "Yes")) upper_ascii
           (lit "gemini") (lit "p") (lit "s") (lit "c") quiet) in
  succeeded jr = false /\
  raw_response jr
    = lit "Error during API call to gemini: boom" ++ [LF] ++ lit "Yes" /\
  parse (raw_response jr) = Approve /\
  parse (raw_response jr) <> Unknown.
Proof. repeat split. discriminate. Qed.

(** C3 as stated fails: after a transport error the text of the result is
    not the description of the exception, it is that description behind a
    prefix that names the judge. *)
Lemma transport_error_text_is_prefixed :
  let jr :=
    fst (invoke (always_raises (lit "timeout")) upper_ascii
           (lit "gemini") (lit "p") (lit "s") (lit "c") quiet) in
  ending (always_raises (lit "timeout"))
    (lit "gemini") (lit "p") (lit "s") (lit "c") quiet
    = TransportFailure (lit "timeout") /\
  succeeded jr = false /\
  raw_response jr = lit "Error during API call to gemini: timeout" /\
  raw_response jr <> lit "timeout".
Proof. repeat split. discriminate. Qed.

(** C5 as stated fails: the only judge of the run fails, on an exception
    whose description ends with the line "Yes"; its verdict is not Unknown
    but Approve, and the run is reported as a unanimous approval. *)
Lemma failed_judge_counted_as_approval :
  let create := always_raises (lit "boom" ++ [LF] ++ lit "Yes") in
  let a := {| prompt := lit "p"; strategy_output := lit "s"; code := lit "c";
              models := [lit "gemini"] |} in
  let run := fst (main create upper_ascii a quiet) in
  ending create (lit "gemini") (prompt a) (strategy_output a) (code a) quiet
    = TransportFailure (lit "boom" ++ [LF] ++ lit "Yes") /\
  map verdict_of (verdicts run) = [Approve] /\
  yes_count run = 1 /\
  count_verdict Unknown (map verdict_of (verdicts run)) = 0 /\
  consensus run = UnanimousApprove.
Proof. repeat split. Qed.

(** C6 on the code. The registry has three entries and the cap written in
    the call is 10000 for the identifier "openai" and 2000 for the two
    others; but the cap is chosen by comparing the identifier as given,
    while the registry is looked up under its lowercase: "OPENAI" reaches
    the model of "openai" with the cap 2000. *)
Theorem response_cap_misses_uppercase_openai :
  length CRITIC_MODEL_LIST = 3 /\
  map response_cap registry_keys = [2000; 10000; 2000]%Z /\
  resolves (lit "OPENAI") = resolves (lit "openai") /\
  map (fun r => (model r, max_completion_tokens r))
      (calls (snd (generate_critic (always_answers (lit "Yes")) upper_ascii
                     (lit "openai") (lit "p") (lit "s") (lit "c") quiet)))
    = [(lit "openai/gpt-4.1", 10000%Z)] /\
  map (fun r => (model r, max_completion_tokens r))
      (calls (snd (generate_critic (always_answers (lit "Yes")) upper_ascii
                     (lit "OPENAI") (lit "p") (lit "s") (lit "c") quiet)))
    = [(lit "openai/gpt-4.1", 2000%Z)].
Proof. repeat split. Qed.

(** ** More on the verdict line *)

Lemma join_cons (sep x : str) (y : str) (rest : list str) :
  join sep (x :: y :: rest) = x ++ sep ++ join sep (y :: rest).
Proof. reflexivity. Qed.

(** Joining the lines again gives the text back. *)
Lemma join_split_lf (s : str) : join [LF] (split_lf s) = s.
Proof.
  induction s as [|c t IH]; [reflexivity|].
  simpl split_lf. pose proof (split_lf_not_nil t) as Hne.
  destruct (Ascii.eqb c LF) eqn:E.
  - apply Ascii.eqb_eq in E. subst c.
    destruct (split_lf t) as [|l ls]; [contradiction|].
    rewrite join_cons, IH. reflexivity.
  - destruct (split_lf t) as [|l ls]; [contradiction|].
    destruct ls as [|l' ls].
    + simpl in *. now rewrite IH.
    + rewrite join_cons, <- IH, join_cons. reflexivity.
Qed.

Lemma join_snoc (sep : str) (init : list str) (x : str) :
  init <> [] -> join sep (init ++ [x]) = join sep init ++ sep ++ x.
Proof.
  induction init as [|y init IH]; [contradiction|]. intros _.
  destruct init as [|z init]; [reflexivity|].
  change ((y :: z :: init) ++ [x]) with (y :: (z :: init) ++ [x]).
  simpl app at 1. rewrite !join_cons.
  change (z :: init ++ [x]) with ((z :: init) ++ [x]).
  rewrite IH by discriminate. now rewrite <- !app_assoc.
Qed.

Lemma lstrip_idem (s : str) : lstrip (lstrip s) = lstrip s.
Proof.
  induction s as [|c t IH]; [reflexivity|].
  simpl. destruct (is_space c) eqn:E; [exact IH|].
  simpl. now rewrite E.
Qed.

Lemma strip_idem (s : str) : strip (strip s) = strip s.
Proof.
  assert (R : rstrip (strip s) = strip s).
  { destruct (strip_ends s) as [E|(t & c & E & Hc)]; rewrite E.
    - reflexivity.
    - now rewrite rstrip_snoc, Hc. }
  unfold strip at 1. rewrite R. unfold strip. apply lstrip_idem.
Qed.

Lemma no_LF_app (a b : str) : no_LF (a ++ b) = no_LF a && no_LF b.
Proof. apply forallb_app. Qed.

Lemma no_LF_rev (s : str) : no_LF (rev s) = no_LF s.
Proof.
  induction s as [|c t IH]; [reflexivity|].
  simpl rev. rewrite no_LF_app, IH. simpl. rewrite andb_true_r. apply andb_comm.
Qed.

Lemma no_LF_lstrip (s : str) : no_LF s = true -> no_LF (lstrip s) = true.
Proof.
  induction s as [|c t IH]; [reflexivity|].
  intros H. simpl. destruct (is_space c); [|exact H].
  apply IH. simpl in H. now apply andb_true_iff in H.
Qed.

Lemma no_LF_strip (s : str) : no_LF s = true -> no_LF (strip s) = true.
Proof.
  intros H. unfold strip, rstrip.
  apply no_LF_lstrip. rewrite no_LF_rev. apply no_LF_lstrip.
  now rewrite no_LF_rev.
Qed.

(** No line has a line feed. *)
Lemma split_lf_no_LF (s : str) : Forall (fun l => no_LF l = true) (split_lf s).
Proof.
  induction s as [|c t IH]; [repeat constructor|].
  simpl. destruct (Ascii.eqb c LF) eqn:E.
  - now constructor.
  - destruct (split_lf t) as [|l ls]; [repeat constructor; simpl; now rewrite E|].
    inversion IH; subst. constructor; [|assumption].
    simpl. now rewrite E.
Qed.

Lemma split_lf_one_line (s : str) : no_LF s = true -> split_lf s = [s].
Proof.
  intros H. pose proof (split_lf_app_no_LF s [] H) as E.
  simpl in E. now rewrite !app_nil_r in E.
Qed.

Lemma split_lf_app_LF (a b : str) :
  split_lf (a ++ LF :: b) = split_lf a ++ split_lf b.
Proof.
  induction a as [|c a IH]; [reflexivity|].
  simpl. rewrite IH. destruct (Ascii.eqb c LF); [reflexivity|].
  pose proof (split_lf_not_nil a). now destruct (split_lf a).
Qed.

(** A text is blank exactly when all its lines are. *)
Lemma is_blank_split_lf (s : str) : forallb is_blank (split_lf s) = is_blank s.
Proof.
  induction s as [|c t IH]; [reflexivity|].
  simpl split_lf. destruct (Ascii.eqb c LF) eqn:E.
  - apply Ascii.eqb_eq in E. subst c. simpl. exact IH.
  - pose proof (split_lf_not_nil t).
    destruct (split_lf t) as [|l ls]; [contradiction|].
    simpl in *. rewrite <- IH. now rewrite andb_assoc.
Qed.

Lemma filter_nonblank_nil (ls : list str) :
  filter (fun l => negb (is_blank l)) ls = [] -> forallb is_blank ls = true.
Proof.
  induction ls as [|l ls IH]; [reflexivity|].
  simpl. destruct (is_blank l); simpl; [exact IH|discriminate].
Qed.

Lemma last_app_nonempty {A : Type} (xs ys : list A) (d : A) :
  ys <> [] -> last (xs ++ ys) d = last ys d.
Proof.
  intros H. destruct (exists_last H) as (init & y & ->).
  now rewrite app_assoc, !last_last.
Qed.

Lemma strip_app_blank_r (r ws : str) :
  is_blank ws = true -> strip (r ++ ws) = strip r.
Proof.
  induction ws as [|c ws IH] using rev_ind; intros H.
  - now rewrite app_nil_r.
  - rewrite is_blank_snoc in H. apply andb_true_iff in H as [Hw Hc].
    rewrite app_assoc, strip_snoc_space by exact Hc. now apply IH.
Qed.

Lemma strip_app_blank_l (ws r : str) :
  is_blank ws = true -> strip (ws ++ r) = strip r.
Proof.
  induction ws as [|c ws IH]; intros H; [reflexivity|].
  simpl in H. apply andb_true_iff in H as [Hc Hw].
  simpl app. rewrite strip_cons_space by exact Hc. now apply IH.
Qed.

(** *** Lowercasing goes through trimming and splitting *)

Lemma is_space_lower_char (c : ascii) : is_space (lower_char c) = is_space c.
Proof. destruct c as [[] [] [] [] [] [] [] []]; reflexivity. Qed.

Lemma lstrip_lower (s : str) : lstrip (lower s) = lower (lstrip s).
Proof.
  induction s as [|c t IH]; [reflexivity|].
  simpl. rewrite is_space_lower_char. now destruct (is_space c).
Qed.

Lemma strip_lower (s : str) : strip (lower s) = lower (strip s).
Proof.
  unfold strip, rstrip, lower.
  rewrite <- map_rev. fold (lower (rev s)). rewrite lstrip_lower.
  unfold lower. rewrite <- map_rev.
  fold (lower (rev (lstrip (rev s)))). apply lstrip_lower.
Qed.

Lemma split_lf_lower (s : str) : split_lf (lower s) = map lower (split_lf s).
Proof.
  induction s as [|c t IH]; [reflexivity|].
  simpl. rewrite lower_char_LF, IH.
  destruct (Ascii.eqb c LF); [reflexivity|].
  now destruct (split_lf t).
Qed.

Lemma last_lower (ls : list str) : last (map lower ls) [] = lower (last ls []).
Proof.
  induction ls as [|l ls IH]; [reflexivity|].
  destruct ls as [|l' ls]; [reflexivity|]. exact IH.
Qed.

Lemma verdict_token_lower (r : str) :
  verdict_token (lower r) = lower (verdict_token r).
Proof.
  rewrite !verdict_token_eq.
  now rewrite strip_lower, split_lf_lower, last_lower, strip_lower.
Qed.

Lemma verdict_of_lower (v : str) : verdict_of (lower v) = verdict_of v.
Proof. unfold verdict_of. now rewrite lower_idem. Qed.

(** X1. The verdict line of a critique holds no line feed and no white
    space around it, and it is its own verdict line: reading the verdict
    from the line shown in the summary gives the verdict of the critique. *)
Theorem verdict_line_is_clean (critique : str) :
  no_LF (verdict_token critique) = true /\
  strip (verdict_token critique) = verdict_token critique /\
  verdict_token (verdict_token critique) = verdict_token critique /\
  parse (verdict_token critique) = parse critique.
Proof.
  assert (N : no_LF (verdict_token critique) = true).
  { rewrite verdict_token_eq. apply no_LF_strip.
    pose proof (split_lf_no_LF (strip critique)) as F.
    rewrite (split_lf_last (strip critique)) in F.
    apply Forall_app in F as [_ F]. now inversion F. }
  assert (S : strip (verdict_token critique) = verdict_token critique)
    by (rewrite verdict_token_eq; apply strip_idem).
  assert (T : verdict_token (verdict_token critique) = verdict_token critique).
  { rewrite (verdict_token_eq (verdict_token critique)), S.
    rewrite (split_lf_one_line _ N). exact S. }
  repeat split; try assumption. unfold parse. now rewrite T.
Qed.

(** X2. White space before and after a critique, blank lines included,
    does not change its verdict line. *)
Theorem verdict_ignores_surrounding_space (before critique after : str) :
  is_blank before = true -> is_blank after = true ->
  verdict_token (before ++ critique ++ after) = verdict_token critique /\
  parse (before ++ critique ++ after) = parse critique.
Proof.
  intros Hb Ha.
  assert (E : verdict_token (before ++ critique ++ after) = verdict_token critique).
  { rewrite !verdict_token_eq.
    now rewrite (strip_app_blank_l _ _ Hb), (strip_app_blank_r _ _ Ha). }
  split; [exact E|]. unfold parse. now rewrite E.
Qed.

(** X3. When the text after a line feed is not blank, nothing before that
    line feed matters: the verdict line is that of the text after it. *)
Theorem verdict_reads_the_end (reasoning ending_text : str) :
  is_blank ending_text = false ->
  verdict_token (reasoning ++ LF :: ending_text) = verdict_token ending_text /\
  parse (reasoning ++ LF :: ending_text) = parse ending_text.
Proof.
  intros H.
  assert (E : verdict_token (reasoning ++ LF :: ending_text)
              = verdict_token ending_text).
  { rewrite !verdict_token_nonblank. unfold last_nonblank_line_trimmed.
    rewrite split_lf_app_LF, filter_app. f_equal.
    apply last_app_nonempty. intros F.
    apply filter_nonblank_nil in F. rewrite is_blank_split_lf in F. congruence. }
  split; [exact E|]. unfold parse. now rewrite E.
Qed.

(** X4. The verdict does not depend on the case of the critique: the
    verdict line of the lowercased critique is the lowercased verdict line,
    and both give the same verdict. *)
Theorem verdict_ignores_case (critique : str) :
  verdict_token (lower critique) = lower (verdict_token critique) /\
  parse (lower critique) = parse critique.
Proof.
  split; [apply verdict_token_lower|].
  unfold parse. rewrite verdict_token_lower. apply verdict_of_lower.
Qed.

Lemma verdict_ignores_surrounding_space_witness :
  is_blank (lit "  " ++ [LF]) = true /\ is_blank [LF; LF] = true /\
  verdict_token ((lit "  " ++ [LF]) ++ lit "ok" ++ [LF] ++ lit "Yes" ++ [LF; LF])
  = lit "Yes".
Proof.
  split; [reflexivity|]. split; [reflexivity|].
  exact (proj1 (verdict_ignores_surrounding_space
                  (lit "  " ++ [LF]) (lit "ok" ++ [LF] ++ lit "Yes") [LF; LF]
                  eq_refl eq_refl)).
Defined.

Lemma verdict_reads_the_end_witness :
  is_blank (lit "No") = false /\
  parse (lit "Yes" ++ [LF] ++ lit "but" ++ LF :: lit "No") = Reject.
Proof.
  split; [reflexivity|].
  exact (proj2 (verdict_reads_the_end
                  (lit "Yes" ++ [LF] ++ lit "but") (lit "No") eq_refl)).
Defined.

(** ** More on the display and the run *)

Lemma format_critique_output_eq (critique model : str) (w : World) :
  format_critique_output critique model w =
  (tt,
   {| calls := calls w;
      stdout :=
        stdout w ++
        [ Line (lit "Model: " ++ model);
          Line (lit "Verdict: "
                ++ (ESC :: match parse critique with
                           | Approve => lit "[92m"
                           | _ => lit "[91m"
                           end)
                ++ verdict_token critique ++ ESC :: lit "[0m");
          Line (LF :: lit "Reasoning:");
          Line (times "-" 80);
          Line (reasoning_shown critique);
          Line (times "-" 80) ] |}).
Proof.
  unfold format_critique_output. fold (displayed_verdict critique).
  rewrite displayed_verdict_eq.
  unfold bind, print, emit. cbn [calls stdout].
  rewrite <- !(@app_assoc Output). cbn [app].
  unfold parse, verdict_of, reasoning_shown.
  destruct (eqb (lower (verdict_token critique)) (lit "yes")); [reflexivity|].
  now destruct (eqb (lower (verdict_token critique)) (lit "no")).
Qed.

Lemma trimmed_critique_split (critique : str) :
  strip critique =
  match but_last (split_lf (strip critique)) with
  | [] => last_line critique
  | _ => reasoning_shown critique ++ [LF] ++ last_line critique
  end.
Proof.
  unfold reasoning_shown, last_line, last_item, but_last.
  set (s := strip critique).
  pose proof (join_split_lf s) as J. rewrite (split_lf_last s) in J.
  destruct (removelast (split_lf s)) as [|l ls] eqn:E.
  - now symmetry.
  - rewrite join_snoc in J by discriminate. now symmetry.
Qed.

(** X5. [format_critique_output] prints six lines and leaves the transport
    alone.  The verdict it shows is the verdict line of the summary, in
    green exactly when that line counts as an approval and in red otherwise.
    The reasoning it shows and the last line make up the trimmed critique:
    a critique of one line has no reasoning, otherwise the reasoning, a line
    feed and the last line are the trimmed critique. *)
Theorem format_critique_output_shows (critique model : str) (w : World) :
  let w' := snd (format_critique_output critique model w) in
  calls w' = calls w /\
  stdout w' =
    stdout w ++
    [ Line (lit "Model: " ++ model);
      Line (lit "Verdict: "
            ++ (ESC :: match parse critique with
                       | Approve => lit "[92m"
                       | _ => lit "[91m"
                       end)
            ++ verdict_token critique ++ ESC :: lit "[0m");
      Line (LF :: lit "Reasoning:");
      Line (times "-" 80);
      Line (reasoning_shown critique);
      Line (times "-" 80) ] /\
  verdict_token critique = strip (last_line critique) /\
  strip critique =
    match but_last (split_lf (strip critique)) with
    | [] => last_line critique
    | _ => reasoning_shown critique ++ [LF] ++ last_line critique
    end.
Proof.
  rewrite format_critique_output_eq. cbv zeta. cbn [snd calls stdout].
  split; [reflexivity|]. split; [reflexivity|].
  split; [apply verdict_token_eq|apply trimmed_critique_split].
Qed.

Section MoreRunFacts.

Variable create : list Request -> Request -> result str.
Variable upper : str -> str.

Lemma stdout_generate_critic (model_choice p s c : str) (w : World) :
  exists more,
    stdout (snd (generate_critic create upper model_choice p s c w))
    = stdout w ++ more.
Proof.
  destruct (resolves model_choice) as [model|] eqn:R.
  - rewrite (generate_critic_resolved create upper model_choice model p s c w R).
    cbv zeta. destruct (create (calls w) _); eexists; reflexivity.
  - rewrite (generate_critic_unrecognised create upper model_choice p s c w R).
    exists []. simpl. now rewrite app_nil_r.
Qed.

Lemma stdout_collect (a : Args) (todo : list str) (w : World) :
  exists more, stdout (snd (collect create upper a todo w)) = stdout w ++ more.
Proof.
  revert w. induction todo as [|model_choice rest IH]; intros w.
  - exists []. simpl. now rewrite app_nil_r.
  - rewrite collect_cons. cbv zeta. cbn [snd].
    match goal with
    | |- context [collect create upper a rest ?w2] =>
        destruct (IH w2) as [more2 ->]
    end.
    change (stdout (snd (print [] ?x))) with (stdout x ++ [Line []]).
    rewrite format_critique_output_eq. cbn [snd stdout].
    destruct (stdout_generate_critic model_choice
                (prompt a) (strategy_output a) (code a) w) as [more1 ->].
    rewrite <- !(@app_assoc Output). eexists. reflexivity.
Qed.

Lemma stdout_main (a : Args) (w : World) :
  exists more, stdout (snd (main create upper a w)) = stdout w ++ more.
Proof.
  rewrite main_eq. cbv zeta. cbn [snd stdout].
  match goal with
  | |- context [collect create upper a (models a) ?w0] =>
      destruct (stdout_collect a (models a) w0) as [more ->]
  end.
  cbn [stdout]. rewrite <- !(@app_assoc Output). eexists. reflexivity.
Qed.

Lemma calls_main (a : Args) (w : World) :
  calls (snd (main create upper a w)) = calls w ++ requests_for a (models a).
Proof.
  rewrite main_eq. cbv zeta. cbn [snd calls].
  match goal with
  | |- context [collect create upper a (models a) ?w0] =>
      destruct (collect_facts create upper a (models a) w0) as (_ & _ & ->)
  end.
  reflexivity.
Qed.

End MoreRunFacts.

Lemma requests_for_cons (a : Args) (id : str) (rest : list str) :
  requests_for a (id :: rest) =
  match resolves id with
  | Some model =>
      critic_request id model (prompt a) (strategy_output a) (code a)
      :: requests_for a rest
  | None => requests_for a rest
  end.
Proof. unfold requests_for. simpl. now destruct (resolves id). Qed.

Lemma critic_request_well_formed (id model p s c : str) :
  resolves id = Some model ->
  well_formed_request (critic_request id model p s c).
Proof.
  intros R. apply resolves_key in R.
  repeat split.
  - apply (in_map snd) in R. exact R.
  - simpl. unfold response_cap.
    destruct (eqb id (lit "openai")); simpl; auto.
Qed.

Lemma registry_key_resolves (id : str) :
  In id registry_keys ->
  exists model,
    resolves id = Some model /\
    dict_get CRITIC_MODEL_LIST id = Some model /\
    response_cap id = cap_of_model model.
Proof.
  intros H. simpl in H.
  destruct H as [<-|[<-|[<-|[]]]]; eexists; repeat split.
Qed.

Lemma count_word_perm (word : str) (vs vs' : list str) :
  Permutation vs vs' -> count_word word vs = count_word word vs'.
Proof.
  rewrite !count_word_length.
  induction 1 as [|x l l' _ IH|x y l|l l' l'' _ IH1 _ IH2]; simpl.
  - reflexivity.
  - destruct (eqb (lower x) word); simpl; congruence.
  - destruct (eqb (lower x) word); destruct (eqb (lower y) word); reflexivity.
  - congruence.
Qed.

(** X6. The consensus does not depend on the order of the verdict lines:
    the two counts and the classification are the same for a list and for
    any rearrangement of it. *)
Theorem consensus_ignores_order (vs vs' : list str) :
  Permutation vs vs' ->
  count_word (lit "yes") vs = count_word (lit "yes") vs' /\
  count_word (lit "no") vs = count_word (lit "no") vs' /\
  aggregate vs = aggregate vs'.
Proof.
  intros P. pose proof (count_word_perm (lit "yes") vs vs' P) as Y.
  pose proof (count_word_perm (lit "no") vs vs' P) as N.
  split; [exact Y|]. split; [exact N|].
  unfold aggregate. now rewrite Y, N, (Permutation_length P).
Qed.

Lemma consensus_ignores_order_witness :
  Permutation [lit "Yes"; lit "no"; lit "YES"] [lit "no"; lit "YES"; lit "Yes"] /\
  aggregate [lit "Yes"; lit "no"; lit "YES"]
  = aggregate [lit "no"; lit "YES"; lit "Yes"].
Proof.
  assert (P : Permutation [lit "Yes"; lit "no"; lit "YES"]
                          [lit "no"; lit "YES"; lit "Yes"]).
  { apply perm_trans with [lit "no"; lit "Yes"; lit "YES"].
    - apply perm_swap.
    - apply perm_skip, perm_swap. }
  split; [exact P|].
  exact (proj2 (proj2 (consensus_ignores_order _ _ P))).
Defined.

Section MoreRunClaims.

Variable create : list Request -> Request -> result str.
Variable upper : str -> str.

(** X7. Whatever identifiers a run is given and whatever the transport
    answers, every request it makes names a model of the registry, carries
    the system prompt first and then the user message built from the
    arguments, a cap of 2000 or 10000 and the temperature 0.3; and the run
    makes at most one request for each identifier, none for an identifier
    that is not recognised. *)
Theorem run_requests_well_formed (a : Args) (w : World) :
  exists rs,
    calls (snd (main create upper a w)) = calls w ++ rs /\
    length rs <= length (models a) /\
    length rs = length (filter (fun id => match resolves id with
                                          | Some _ => true
                                          | None => false
                                          end) (models a)) /\
    Forall well_formed_request rs /\
    Forall (fun r => nth 1 (map content (messages r)) []
                     = user_message (prompt a) (strategy_output a) (code a)) rs.
Proof.
  exists (requests_for a (models a)). split; [apply calls_main|].
  induction (models a) as [|id rest (L & C & W & U)].
  - repeat split; constructor.
  - rewrite requests_for_cons. simpl filter.
    destruct (resolves id) as [model|] eqn:R; simpl length.
    + split; [lia|]. split; [lia|]. split.
      * constructor; [now apply critic_request_well_formed|exact W].
      * constructor; [reflexivity|exact U].
    + split; [lia|]. split; [exact C|]. split; assumption.
Qed.

(** X8. When every identifier of the run is a key of the registry, as the
    choices of [--models] make sure, the run makes exactly one request for
    each identifier, in order, to the model the registry gives for it, and
    with the cap meant for that model: 10000 for the model of "openai",
    2000 for the others. *)
Theorem registry_identifiers_get_their_cap (a : Args) (w : World) :
  Forall (fun id => In id registry_keys) (models a) ->
  exists rs,
    calls (snd (main create upper a w)) = calls w ++ rs /\
    Forall2 (fun id r =>
               dict_get CRITIC_MODEL_LIST id = Some (model r) /\
               max_completion_tokens r = cap_of_model (model r))
            (models a) rs.
Proof.
  intros H. exists (requests_for a (models a)). split; [apply calls_main|].
  induction H as [|id rest Hid _ IH]; [constructor|].
  rewrite requests_for_cons.
  destruct (registry_key_resolves id Hid) as (model & -> & G & Cap).
  constructor; [|exact IH]. split; [exact G|exact Cap].
Qed.

End MoreRunClaims.

Lemma registry_identifiers_get_their_cap_witness :
  Forall (fun id => In id registry_keys) [lit "openai"; lit "gemini"] /\
  exists rs,
    calls (snd (main (always_answers (lit "Yes")) upper_ascii
                  {| prompt := lit "p"; strategy_output := lit "s";
                     code := lit "c"; models := [lit "openai"; lit "gemini"] |}
                  quiet)) = calls quiet ++ rs /\
    map max_completion_tokens rs = [10000; 2000]%Z.
Proof.
  assert (H : Forall (fun id => In id registry_keys) [lit "openai"; lit "gemini"])
    by (repeat constructor; simpl; auto).
  split; [exact H|].
  destruct (registry_identifiers_get_their_cap
              (always_answers (lit "Yes")) upper_ascii
              {| prompt := lit "p"; strategy_output := lit "s";
                 code := lit "c"; models := [lit "openai"; lit "gemini"] |}
              quiet H) as (rs & C & F).
  exists rs. split; [exact C|].
  inversion F as [|id1 r1 l1 l1' [G1 C1] F1]; subst.
  inversion F1 as [|id2 r2 l2 l2' [G2 C2] F2]; subst.
  inversion F2; subst. simpl.
  rewrite C1, C2.
  injection G1 as <-. injection G2 as <-. reflexivity.
Defined.

(** ** The key, blank critiques and runs put together *)

Lemma lstrip_nil_blank (s : str) : lstrip s = [] -> is_blank s = true.
Proof.
  induction s as [|c t IH]; [reflexivity|].
  simpl. destruct (is_space c); [exact IH|discriminate].
Qed.

Lemma strip_nil_blank (s : str) : strip s = [] -> is_blank s = true.
Proof.
  unfold strip. intros H.
  destruct (rstrip_ends s) as [E|(t & c & E & Hc)].
  - unfold rstrip in E. apply (f_equal (@rev ascii)) in E.
    rewrite rev_involutive in E. simpl in E.
    apply lstrip_nil_blank in E. now rewrite is_blank_rev in E.
  - rewrite E, lstrip_app in H. destruct (is_blank t).
    + simpl in H. rewrite Hc in H. discriminate.
    + now destruct (lstrip t).
Qed.

(** X9. The verdict line is empty exactly when the critique is blank, and
    a blank critique is counted as neither approval nor rejection. *)
Theorem empty_verdict_line_iff_blank (critique : str) :
  (verdict_token critique = [] <-> is_blank critique = true) /\
  (is_blank critique = true -> parse critique = Unknown).
Proof.
  assert (B : is_blank critique = true -> verdict_token critique = []).
  { intros H. rewrite verdict_token_eq, (strip_blank critique H). reflexivity. }
  split; [split; [|exact B]|].
  - rewrite verdict_token_eq. intros H.
    destruct (strip_ends critique) as [E|(t & c & E & Hc)].
    + now apply strip_nil_blank.
    + rewrite E, (last_split_lf_snoc t c Hc) in H.
      destruct (strip_snoc_nonspace (last (split_lf t) []) c Hc) as [y Y].
      rewrite Y in H. now destruct y.
  - intros H. unfold parse. now rewrite (B H).
Qed.

Lemma precedence_UnanimousApprove (V : list Verdict) :
  precedence V = UnanimousApprove <-> forallb (same_verdict Approve) V = true.
Proof.
  unfold precedence. destruct (forallb (same_verdict Approve) V).
  - tauto.
  - destruct (forallb (same_verdict Reject) V); split; discriminate.
Qed.

Lemma precedence_Mixed (V : list Verdict) :
  precedence V = Mixed <->
  forallb (same_verdict Approve) V = false /\
  forallb (same_verdict Reject) V = false.
Proof.
  unfold precedence. destruct (forallb (same_verdict Approve) V).
  - split; [discriminate|intros [H _]; discriminate].
  - destruct (forallb (same_verdict Reject) V).
    + split; [discriminate|intros [_ H]; discriminate].
    + tauto.
Qed.

(** X10. Putting the verdict lines of two runs together: the whole is a
    unanimous approval exactly when both parts are, and a part that is
    mixed makes the whole mixed, whichever side it is put on. *)
Theorem consensus_of_joined_runs (vs vs' : list str) :
  (aggregate (vs ++ vs') = UnanimousApprove <->
   aggregate vs = UnanimousApprove /\ aggregate vs' = UnanimousApprove) /\
  (aggregate vs = Mixed ->
   aggregate (vs ++ vs') = Mixed /\ aggregate (vs' ++ vs) = Mixed).
Proof.
  rewrite !aggregate_precedence, !map_app. split.
  - rewrite !precedence_UnanimousApprove, forallb_app. apply andb_true_iff.
  - rewrite !precedence_Mixed, !forallb_app. intros [A R].
    rewrite A, R, !andb_false_r. now repeat split.
Qed.

Lemma empty_verdict_line_iff_blank_witness :
  is_blank [SP; LF; LF] = true /\ parse [SP; LF; LF] = Unknown.
Proof.
  split; [reflexivity|].
  exact (proj2 (empty_verdict_line_iff_blank [SP; LF; LF]) eq_refl).
Defined.

Lemma consensus_of_joined_runs_witness :
  aggregate [lit "Yes"; lit "No"] = Mixed /\
  aggregate ([lit "Yes"; lit "No"] ++ [lit "Yes"]) = Mixed.
Proof.
  split; [reflexivity|].
  exact (proj1 (proj2 (consensus_of_joined_runs
                         [lit "Yes"; lit "No"] [lit "Yes"]) eq_refl)).
Defined.

(** X11. Without a key, [args.api_key] and the environment variable both
    being absent or empty, the process exits with status 1 after two lines
    on the standard error, having printed nothing and called nothing.
    Otherwise the key is that of [--api-key] when it is not empty, else
    that of the environment; the key is the first thing the run prints,
    and the run then goes as [main] goes with the client of that key. *)
Theorem api_key_gate (client : str -> list Request -> Request -> result str)
    (upper : str -> str) (cli_key env_key : option str) (a : Args) (w : World) :
  match main_entry client upper cli_key env_key a w with
  | Exit status stderr w' =>
      truthy cli_key = false /\ truthy env_key = false /\
      status = 1%Z /\ length stderr = 2 /\ w' = w
  | Done r w' =>
      exists key,
        key <> [] /\
        (if truthy cli_key then cli_key = Some key else env_key = Some key) /\
        r = fst (main (client key) upper a
                   {| calls := calls w; stdout := stdout w ++ [Line key] |}) /\
        calls w' = calls w ++ requests_for a (models a) /\
        exists rest, stdout w' = stdout w ++ Line key :: rest
  end.
Proof.
  assert (D : forall key,
             key <> [] ->
             (if truthy cli_key then cli_key = Some key else env_key = Some key) ->
             match (let (_, w1) := print key w in
                    let (r, w2) := main (client key) upper a w1 in Done r w2) with
             | Exit _ _ _ => False
             | Done r w' =>
                 exists key,
                   key <> [] /\
                   (if truthy cli_key then cli_key = Some key
                    else env_key = Some key) /\
                   r = fst (main (client key) upper a
                              {| calls := calls w;
                                 stdout := stdout w ++ [Line key] |}) /\
                   calls w' = calls w ++ requests_for a (models a) /\
                   exists rest, stdout w' = stdout w ++ Line key :: rest
             end).
  { intros key Hne Hkey. cbv beta iota zeta delta [print emit].
    pose proof (calls_main (client key) upper a
                  {| calls := calls w; stdout := stdout w ++ [Line key] |}) as C.
    destruct (stdout_main (client key) upper a
                {| calls := calls w; stdout := stdout w ++ [Line key] |})
      as [more S].
    destruct (main (client key) upper a _) as [r w2] eqn:M.
    cbn [fst snd calls stdout] in *.
    apply (ex_intro _ key). rewrite M.
    repeat split; try assumption.
    apply (ex_intro _ more). rewrite S, <- app_assoc. reflexivity. }
  unfold main_entry, py_or.
  destruct cli_key as [[|c k]|]; cbn [truthy negb] in *.
  1, 3: destruct env_key as [[|c' k']|]; cbn [truthy negb] in *;
    try (repeat split; reflexivity).
  1, 2: specialize (D (c' :: k') ltac:(discriminate) eq_refl);
    destruct (print (c' :: k') w) as [u w1];
    destruct (main (client (c' :: k')) upper a w1) as [r w2]; exact D.
  specialize (D (c :: k) ltac:(discriminate) eq_refl).
  destruct (print (c :: k) w) as [u w1].
  destruct (main (client (c :: k)) upper a w1) as [r w2]. exact D.
Qed.

Section IndependentJudges.

Variable create : list Request -> Request -> result str.
Variable upper : str -> str.

(** The transport answers a request the same way whatever was asked
    before. *)
Hypothesis stateless : forall h h' r, create h r = create h' r.

Lemma generate_critic_stateless (id p s c : str) (w w' : World) :
  fst (generate_critic create upper id p s c w)
  = fst (generate_critic create upper id p s c w').
Proof.
  destruct (resolves id) as [model|] eqn:R.
  - rewrite (generate_critic_resolved create upper id model p s c w R).
    rewrite (generate_critic_resolved create upper id model p s c w' R).
    cbv zeta. rewrite (stateless (calls w) (calls w')).
    now destruct (create (calls w') _).
  - rewrite (generate_critic_unrecognised create upper id p s c w R).
    now rewrite (generate_critic_unrecognised create upper id p s c w' R).
Qed.

Lemma collect_stateless (a : Args) (todo : list str) (w : World) :
  fst (collect create upper a todo w) =
  map (fun id =>
         (fst (generate_critic create upper id
                 (prompt a) (strategy_output a) (code a) quiet), id)) todo.
Proof.
  revert w. induction todo as [|id rest IH]; intros w; [reflexivity|].
  rewrite collect_cons. cbv zeta. cbn [fst map]. rewrite IH.
  rewrite (generate_critic_stateless id
             (prompt a) (strategy_output a) (code a) w quiet).
  now destruct (generate_critic create upper id _ _ _ quiet) as [[critique model] w1].
Qed.

(** X12. With a transport that answers a request the same way whatever was
    asked before, each result of a run depends on its own identifier only:
    it is what [generate_critic] returns for that identifier on its own, so
    the failure or the answer of one judge changes nothing for the others,
    and neither does the order or the number of judges. *)
Theorem judges_are_independent (a : Args) (w : World) :
  results (fst (main create upper a w)) =
    map (fun id =>
           (fst (generate_critic create upper id
                   (prompt a) (strategy_output a) (code a) quiet), id))
        (models a) /\
  verdicts (fst (main create upper a w)) =
    map (fun id =>
           verdict_token
             (fst (fst (generate_critic create upper id
                          (prompt a) (strategy_output a) (code a) quiet))))
        (models a).
Proof.
  rewrite main_eq. cbv zeta. cbn [fst results verdicts].
  rewrite collect_stateless, map_map. split; reflexivity.
Qed.

End IndependentJudges.

Lemma judges_are_independent_witness :
  (forall (h h' : list Request) (r : Request),
      always_raises (lit "timeout") h r = always_raises (lit "timeout") h' r) /\
  verdicts (fst (main (always_raises (lit "timeout")) upper_ascii
                   {| prompt := lit "p"; strategy_output := lit "s";
                      code := lit "c"; models := [lit "gemini"; lit "nobody"] |}
                   quiet))
  = [lit "Error during API call to gemini: timeout";
     lit "Error: Unknown model 'nobody'"].
Proof.
  split; [reflexivity|].
  exact (proj2 (judges_are_independent
                  (always_raises (lit "timeout")) upper_ascii
                  (fun h h' r => eq_refl)
                  {| prompt := lit "p"; strategy_output := lit "s";
                     code := lit "c"; models := [lit "gemini"; lit "nobody"] |}
                  quiet)).
Defined.
